(** * AutoGen Studio team builder: node, drop-zone and edge components

    A shallow embedding of
    [frontend/src/components/views/shared/team/builder.tsx/components/nodes.tsx]:
    the drop-zone legality check of [DroppableZone], the connection
    handles rendered by the five node components, the registry
    [nodeTypes], and the edge renderer [CustomEdge].  The graph store that
    creates nodes and edges is not part of these sources; it is modelled
    from the specification in [Module Assembler]. *)

From stdpp Require Import gmap strings list fin_maps pretty.
From Stdlib Require Import ZArith.

Local Open Scope string_scope.
Local Open Scope list_scope.
Local Open Scope stdpp_scope.

(** ** JavaScript values

    The drag context and the edge payload are untyped at run time
    ([active?.data?.current?.current?.type], [data?.type]), so they are
    modelled as JavaScript values.  An object is its list of own
    properties, looked up by the first matching key. *)

Module JS.

#[local] Set Warnings "-register-all".

Inductive value : Type :=
| undefined
| null
| boolean (b : bool)
| number (n : Z)
| NaN
| str (s : string)
| object (fields : list (string * value)).

(** Outcome of evaluating an expression: a value, or a thrown
    [TypeError]. *)
Inductive completion (A : Type) : Type :=
| Normal (a : A)
| TypeError (msg : string).
Arguments Normal {A} a.
Arguments TypeError {A} msg.

Definition bind {A B} (c : completion A) (k : A -> completion B)
  : completion B :=
  match c with
  | Normal a => k a
  | TypeError m => TypeError m
  end.

(** ToBoolean. *)
Definition truthy (v : value) : bool :=
  match v with
  | undefined | null | NaN => false
  | boolean b => b
  | number n => negb (n =? 0)%Z
  | str s => negb (String.eqb s EmptyString)
  | object _ => true
  end.

Definition nullish (v : value) : bool :=
  match v with
  | undefined | null => true
  | _ => false
  end.

Fixpoint lookup_field (p : string) (fields : list (string * value))
  : value :=
  match fields with
  | [] => undefined
  | (k, v) :: rest => if String.eqb k p then v else lookup_field p rest
  end.

(** [v.p]: throws on [undefined] and [null]; a primitive has no own
    property of the names read by this program. *)
Definition get (v : value) (p : string) : completion value :=
  match v with
  | undefined => TypeError "Cannot read properties of undefined"
  | null => TypeError "Cannot read properties of null"
  | object fields => Normal (lookup_field p fields)
  | _ => Normal undefined
  end.

(** [v?.p]: [undefined] when [v] is nullish, [v.p] otherwise. *)
Definition opt_get (v : value) (p : string) : completion value :=
  if nullish v then Normal undefined else get v p.

(** A property path read with [?.] at every step, as in [v?.a?.b]. *)
Fixpoint opt_path (v : value) (ps : list string) : completion value :=
  match ps with
  | [] => Normal v
  | p :: rest => bind (opt_get v p) (fun x => opt_path x rest)
  end.

(** A property path read with [.] at every step, as in [v.a.b]. *)
Fixpoint path (v : value) (ps : list string) : completion value :=
  match ps with
  | [] => Normal v
  | p :: rest => bind (get v p) (fun x => path x rest)
  end.

(** [a && b]: [b] is evaluated only when [a] is truthy. *)
Definition and_then (a b : completion value) : completion value :=
  bind a (fun x => if truthy x then b else Normal x).

(** [a || b]: [b] is evaluated only when [a] is falsy. *)
Definition or_else (a b : completion value) : completion value :=
  bind a (fun x => if truthy x then Normal x else b).

(** Strict equality on the values modelled ([NaN] differs from
    itself; objects are compared by identity, which two distinct
    literals never share). *)
Definition strict_equal (a b : value) : bool :=
  match a, b with
  | undefined, undefined => true
  | null, null => true
  | boolean x, boolean y => Bool.eqb x y
  | number x, number y => (x =? y)%Z
  | str x, str y => String.eqb x y
  | _, _ => false
  end.

End JS.

Notation "'let*' x ':=' c 'in' k" := (JS.bind c (fun x => k))
  (at level 10, x name, c at level 100, k at level 200).

(** ** Component kinds *)

(** [ComponentTypes] of the data model: the keys of [iconMap] and of
    [nodeTypes]. *)
Inductive ComponentTypes : Type :=
| team | agent | model | tool | termination.

#[global] Instance ComponentTypes_eq_dec : EqDecision ComponentTypes.
Proof. solve_decision. Defined.

Definition kind_name (k : ComponentTypes) : string :=
  match k with
  | team => "team"
  | agent => "agent"
  | model => "model"
  | tool => "tool"
  | termination => "termination"
  end.

(** ** DroppableZone *)

(** What [useDroppable] hands back to the zone (the ref setter carries
    no data). *)
Record UseDroppable : Type := {
  isOver : bool;
  active : JS.value;
}.

Record DroppableZoneProps : Type := {
  accepts : list ComponentTypes;
  className : option string;
  id : string;
}.

(** [accepts.includes(x)]: the array holds kind names. *)
Definition includes (accepts : list ComponentTypes) (x : JS.value) : bool :=
  existsb (fun k => JS.strict_equal (JS.str (kind_name k)) x) accepts.

(** [[
  const isValidDrop =
    isOver &&
    active?.data?.current?.current?.type &&
    accepts.includes(active.data.current.current.type);
]] *)
Definition isValidDrop (h : UseDroppable) (accepts : list ComponentTypes)
  : JS.completion JS.value :=
  JS.and_then
    (JS.and_then
       (JS.Normal (JS.boolean (isOver h)))
       (JS.opt_path (active h) ["data"; "current"; "current"; "type"]))
    (let* x := JS.path (active h) ["data"; "current"; "current"; "type"] in
     JS.Normal (JS.boolean (includes accepts x))).

(** The legality verdict: the test of the conditional on [isValidDrop]
    that selects the [can-drop] class. *)
Definition canDrop (h : UseDroppable) (accepts : list ComponentTypes)
  : JS.completion bool :=
  let* v := isValidDrop h accepts in JS.Normal (JS.truthy v).

(** The class of the rendered [div]: [droppable-zone p-2], then
    [can-drop] or the empty string by [isValidDrop], then [className]
    or the empty string, separated by single spaces. *)
Definition DroppableZone (h : UseDroppable) (p : DroppableZoneProps)
  : JS.completion string :=
  let* ok := canDrop h (accepts p) in
  JS.Normal ("droppable-zone p-2 "
             +:+ (if ok then "can-drop" else EmptyString)
             +:+ " "
             +:+ default EmptyString (className p)).

(** The kind the drag session resolves for the active item. *)
Definition draggedType (active : JS.value) : JS.completion JS.value :=
  JS.opt_path active ["data"; "current"; "current"; "type"].

(** A well-formed drag payload for a component of kind [k], in the shape
    the zone reads it: [{data: {current: {current: {type: k}}}}]. *)
Definition dragItem (k : ComponentTypes) : JS.value :=
  JS.object [("data",
    JS.object [("current",
      JS.object [("current",
        JS.object [("type", JS.str (kind_name k))])])])].

(** ** Component configurations

    [nodes.tsx] imports the configuration types from
    [types/datamodel], which is not among the sources.  Their fields
    are those the data model of the specification lists, under the names
    the components read them by; an optional field is an [option], an
    optional sequence a list (absent reads as empty: the components
    take [participants?.length || 0]). *)

(** Modelled from the spec: [ModelConfig], whose declaration is
    missing: model_type, model identifier (the field [model]), optional
    base_url. *)
Record ModelConfig : Type := {
  model_type : string;
  model_name : string;
  base_url : option string;
}.

(** Modelled from the spec: [ToolConfig], whose declaration is missing:
    tool_type, description, content; the components also read its
    [name]. *)
Record ToolConfig : Type := {
  tool_name : string;
  tool_type : string;
  description : string;
  content : string;
}.

(** Modelled from the spec: [TerminationConfig], whose declaration is
    missing: termination_type, optional max_messages (a positive
    integer). *)
Record TerminationConfig : Type := {
  termination_type : string;
  max_messages : option positive;
}.

(** Modelled from the spec: [AgentConfig], whose declaration is
    missing: agent_type, optional model reference, optional
    system_message, sequence of tool references; the components also read
    its [name]. *)
Record AgentConfig : Type := {
  agent_name : string;
  agent_type : string;
  agent_model_client : option ModelConfig;
  system_message : option string;
  agent_tools : list ToolConfig;
}.

(** Modelled from the spec: [TeamConfig], whose declaration is missing:
    team_type, optional model reference, ordered sequence of participant
    references, optional selector_prompt, optional single termination
    reference. *)
Record TeamConfig : Type := {
  team_type : string;
  team_model_client : option ModelConfig;
  team_participants : list AgentConfig;
  selector_prompt : option string;
  team_termination_condition : option TerminationConfig;
}.

(** Modelled from the spec: the tagged union carried by
    [NodeData.config], one variant per component kind. *)
Inductive ComponentConfig : Type :=
| TeamCfg (c : TeamConfig)
| AgentCfg (c : AgentConfig)
| ModelCfg (c : ModelConfig)
| ToolCfg (c : ToolConfig)
| TerminationCfg (c : TerminationConfig).

#[global] Instance ModelConfig_eq_dec : EqDecision ModelConfig.
Proof. solve_decision. Defined.
#[global] Instance ToolConfig_eq_dec : EqDecision ToolConfig.
Proof. solve_decision. Defined.
#[global] Instance TerminationConfig_eq_dec : EqDecision TerminationConfig.
Proof. solve_decision. Defined.
#[global] Instance AgentConfig_eq_dec : EqDecision AgentConfig.
Proof. solve_decision. Defined.
#[global] Instance TeamConfig_eq_dec : EqDecision TeamConfig.
Proof. solve_decision. Defined.
#[global] Instance ComponentConfig_eq_dec : EqDecision ComponentConfig.
Proof. solve_decision. Defined.

(** The variant a configuration value belongs to. *)
Definition config_tag (c : ComponentConfig) : ComponentTypes :=
  match c with
  | TeamCfg _ => team
  | AgentCfg _ => agent
  | ModelCfg _ => model
  | ToolCfg _ => tool
  | TerminationCfg _ => termination
  end.

(** *** Property reads through a cast

    [props.data.config as TeamConfig] is erased at run time: the
    component then reads properties by name from whatever object it
    was given.  A property the object does not have reads as
    [undefined] ([None], the empty list for a sequence). *)

Definition model_client (c : ComponentConfig) : option ModelConfig :=
  match c with
  | TeamCfg t => team_model_client t
  | AgentCfg a => agent_model_client a
  | _ => None
  end.

Definition termination_condition (c : ComponentConfig)
  : option TerminationConfig :=
  match c with
  | TeamCfg t => team_termination_condition t
  | _ => None
  end.

Definition participants (c : ComponentConfig) : list AgentConfig :=
  match c with
  | TeamCfg t => team_participants t
  | _ => []
  end.

Definition tools (c : ComponentConfig) : list ToolConfig :=
  match c with
  | AgentCfg a => agent_tools a
  | _ => []
  end.

(** ** Node components *)

Inductive HandleType : Type := source | target.

#[global] Instance HandleType_eq_dec : EqDecision HandleType.
Proof. solve_decision. Defined.

Inductive Position : Type := Left | Right.

(** The props of a rendered [<Handle/>]. *)
Record Handle : Type := {
  h_type : HandleType;
  h_position : Position;
  h_id : string;
  h_className : string;
}.

(** The props of a rendered [<ConnectionBadge/>]. *)
Record Badge : Type := {
  connected : bool;
  label : string;
}.

(** What a node component renders inside [BaseNode]: its badges, its
    connection handles and its drop zones, each in document order. *)
Record NodeView : Type := {
  badges : list Badge;
  handles : list Handle;
  zones : list DroppableZoneProps;
}.

Definition input_handle (id : string) : Handle :=
  {| h_type := target; h_position := Left;
     h_id := id +:+ "-input-handle"; h_className := "my-left-handle" |}.

Definition output_handle (id : string) : Handle :=
  {| h_type := source; h_position := Right;
     h_id := id +:+ "-output-handle"; h_className := "my-right-handle" |}.

Definition zone (id : string) (slot : string) (accepts : list ComponentTypes)
  : DroppableZoneProps :=
  {| accepts := accepts; className := None; id := id +:+ slot |}.

Definition TeamNode (id : string) (config : ComponentConfig) : NodeView :=
  let hasModel := bool_decide (is_Some (model_client config)) in
  let participantCount := length (participants config) in
  {| badges :=
       [ {| connected := hasModel; label := "Model" |};
         {| connected := bool_decide (0 < participantCount);
            label := pretty participantCount +:+ " Participants" |} ];
     handles :=
       (if bool_decide (is_Some (model_client config))
           || bool_decide (is_Some (termination_condition config))
        then [input_handle id] else [])
       ++ [output_handle id];
     zones :=
       [ zone id "-model-zone" [model];
         zone id "-agent-zone" [agent];
         zone id "-termination-zone" [termination] ] |}.

Definition AgentNode (id : string) (config : ComponentConfig) : NodeView :=
  let hasModel := bool_decide (is_Some (model_client config)) in
  let toolCount := length (tools config) in
  {| badges :=
       [ {| connected := hasModel; label := "Model" |};
         {| connected := bool_decide (0 < toolCount);
            label := pretty toolCount +:+ " Tools" |} ];
     handles :=
       [ input_handle id;
         {| h_type := target; h_position := Right;
            h_id := id +:+ "-output-handle";
            h_className := "my-right-handle" |} ];
     zones :=
       [ zone id "-model-zone" [model];
         zone id "-tool-zone" [tool] ] |}.

Definition ModelNode (id : string) (config : ComponentConfig) : NodeView :=
  {| badges := []; handles := [output_handle id]; zones := [] |}.

Definition ToolNode (id : string) (config : ComponentConfig) : NodeView :=
  {| badges := []; handles := [output_handle id]; zones := [] |}.

Definition TerminationNode (id : string) (config : ComponentConfig)
  : NodeView :=
  {| badges := []; handles := [output_handle id]; zones := [] |}.

(** The registry handed to the canvas: the component for each node
    type. *)
Definition nodeTypes (k : ComponentTypes)
  : string -> ComponentConfig -> NodeView :=
  match k with
  | team => TeamNode
  | agent => AgentNode
  | model => ModelNode
  | tool => ToolNode
  | termination => TerminationNode
  end.

(** Handles of one role among those a component renders. *)
Definition handles_of (r : HandleType) (v : NodeView) : list Handle :=
  filter (fun h => h_type h = r) (handles v).

(** *** Rendering by matching on the variant

    The same five views, written as the specification asks of a
    consumer: the config is matched against the variant of the node's
    kind and its fields are read from that variant; a config of another
    variant is not interpreted. *)
Definition render_matching (k : ComponentTypes) (id : string)
    (c : ComponentConfig) : option NodeView :=
  match k, c with
  | team, TeamCfg t =>
      Some
        {| badges :=
             [ {| connected := bool_decide (is_Some (team_model_client t));
                  label := "Model" |};
               {| connected := bool_decide (0 < length (team_participants t));
                  label := pretty (length (team_participants t))
                           +:+ " Participants" |} ];
           handles :=
             (if bool_decide (is_Some (team_model_client t))
                 || bool_decide (is_Some (team_termination_condition t))
              then [input_handle id] else [])
             ++ [output_handle id];
           zones :=
             [ zone id "-model-zone" [model];
               zone id "-agent-zone" [agent];
               zone id "-termination-zone" [termination] ] |}
  | agent, AgentCfg a =>
      Some
        {| badges :=
             [ {| connected := bool_decide (is_Some (agent_model_client a));
                  label := "Model" |};
               {| connected := bool_decide (0 < length (agent_tools a));
                  label := pretty (length (agent_tools a)) +:+ " Tools" |} ];
           handles :=
             [ input_handle id;
               {| h_type := target; h_position := Right;
                  h_id := id +:+ "-output-handle";
                  h_className := "my-right-handle" |} ];
           zones :=
             [ zone id "-model-zone" [model];
               zone id "-tool-zone" [tool] ] |}
  | model, ModelCfg _ | tool, ToolCfg _ | termination, TerminationCfg _ =>
      Some {| badges := []; handles := [output_handle id]; zones := [] |}
  | _, _ => None
  end.

(** ** Edge rendering *)

(** [EdgeType]: the keys of [EDGE_STYLES]. *)
Inductive EdgeType : Type :=
| model_connection | tool_connection | participant_connection.

#[global] Instance EdgeType_eq_dec : EqDecision EdgeType.
Proof. solve_decision. Defined.

Definition edge_type_name (t : EdgeType) : string :=
  match t with
  | model_connection => "model-connection"
  | tool_connection => "tool-connection"
  | participant_connection => "participant-connection"
  end.

Definition EDGE_STYLES : list (string * JS.value) :=
  [ ("model-connection", JS.object [("stroke", JS.str "rgb(59, 130, 246)")]);
    ("tool-connection", JS.object [("stroke", JS.str "rgb(34, 197, 94)")]);
    ("participant-connection",
      JS.object [("stroke", JS.str "rgb(168, 85, 247)")]) ].

(** The style object the renderer builds for a model connection. *)
Definition model_connection_style : JS.value :=
  JS.object [ ("stroke", JS.str "rgb(59, 130, 246)");
              ("strokeWidth", JS.number 2) ].

(** The property key a value is converted to in [obj[v]]. *)
Definition property_key (v : JS.value) : string :=
  match v with
  | JS.undefined => "undefined"
  | JS.null => "null"
  | JS.boolean b => if b then "true" else "false"
  | JS.number n => pretty n
  | JS.NaN => "NaN"
  | JS.str s => s
  | JS.object _ => "[object Object]"
  end.

(** [{ ...o }] for an object or [undefined]. *)
Definition spread (o : JS.value) : list (string * JS.value) :=
  match o with
  | JS.object fields => fields
  | _ => []
  end.

Definition has_field (k : string) (fields : list (string * JS.value))
  : bool :=
  existsb (fun kv => String.eqb (fst kv) k) fields.

(** Writing one property of an object under construction: an existing
    key keeps its place and takes the new value. *)
Fixpoint set_field (k : string) (v : JS.value)
    (fields : list (string * JS.value)) : list (string * JS.value) :=
  match fields with
  | [] => [(k, v)]
  | (k', v') :: rest =>
      if String.eqb k' k then (k, v) :: rest
      else (k', v') :: set_field k v rest
  end.

(** [{ ...base, ...extra }]: later properties win. *)
Definition assign (base extra : list (string * JS.value))
  : list (string * JS.value) :=
  fold_left (fun acc kv => set_field (fst kv) (snd kv) acc) extra base.

(** The attribute names React keeps for itself when an element is
    created: they are not among the props the component receives. *)
Definition RESERVED_PROPS : list string :=
  ["key"; "ref"; "__self"; "__source"].

Definition reserved (k : string) : bool :=
  existsb (String.eqb k) RESERVED_PROPS.

(** The props a component receives from the attributes its element is
    created with. *)
Definition delivered (attrs : list (string * JS.value))
  : list (string * JS.value) :=
  List.filter (fun kv => negb (reserved (fst kv))) attrs.

Section EdgeRendering.

(** The path geometry comes from the canvas library, which is not among
    the sources: it computes the path from the props, or throws (as it
    does when a position among them is not a position); only the first
    component of its result is used. *)
Variable getBezierPath : list (string * JS.value) -> JS.completion string.

(** [(data?.type as EdgeType) || "model-connection"] *)
Definition edgeType (data : JS.value) : JS.completion JS.value :=
  JS.or_else (JS.opt_get data "type") (JS.Normal (JS.str "model-connection")).

(** [{ ...EDGE_STYLES[edgeType], strokeWidth: 2 }] *)
Definition edgeStyle (data : JS.value) : JS.completion JS.value :=
  let* t := edgeType data in
  JS.Normal
    (JS.object
       (set_field "strokeWidth" (JS.number 2)
          (spread (JS.lookup_field (property_key t) EDGE_STYLES)))).

(** [CustomEdge = ({ data, ...props }) => ...]: the path is computed
    first, then the style; the result is the props [BaseEdge] receives
    from the attributes [path], then [style], then the remaining edge
    props spread over them. *)
Definition CustomEdge (data : JS.value) (props : list (string * JS.value))
  : JS.completion (list (string * JS.value)) :=
  let* edgePath := getBezierPath props in
  let* style := edgeStyle data in
  JS.Normal
    (delivered (assign [("path", JS.str edgePath); ("style", style)] props)).

(** The registry handed to the canvas: every connection type is drawn
    by [CustomEdge]. *)
Definition edgeTypes
  : list (string
          * (JS.value -> list (string * JS.value)
             -> JS.completion (list (string * JS.value)))) :=
  [ ("model-connection", CustomEdge);
    ("tool-connection", CustomEdge);
    ("participant-connection", CustomEdge) ].

End EdgeRendering.

(** The style [BaseEdge] is drawn with. *)
Definition drawn_style (baseEdgeProps : list (string * JS.value)) : JS.value :=
  JS.lookup_field "style" baseEdgeProps.

(** ** The graph and its assembler

    The store that owns the nodes and edges is not among the sources;
    the definitions of this module are modelled from the specification
    (data model, connection legality, graph assembler). *)

Module Assembler.

(** Modelled from the spec: the error kinds of the error handling
    design, all returned as explicit outcomes. *)
Inductive Error : Type :=
| KindMismatch | IncompatibleKinds | SlotOccupied | UnknownNode.

(** Modelled from the spec: what an operation returns, its result or
    the error that rejects it. *)
Inductive Outcome (A : Type) : Type :=
| Accepted (a : A)
| Rejected (e : Error).
Arguments Accepted {A} a.
Arguments Rejected {A} e.

(** Modelled from the spec: the named attachment positions on a parent
    (glossary, Slot), absent from the sources. *)
Inductive Slot : Type :=
| model_slot | participant_slot | tool_slot | termination_slot.

(** Modelled from the spec: the graph vertex of the data model,
    [{ id, kind, label, config, position }]. *)
Record Node : Type := {
  node_id : string;
  kind : ComponentTypes;
  node_label : string;
  config : ComponentConfig;
  position : Z * Z;
}.

(** Modelled from the spec: a handle descriptor,
    [{ owning node id, role, slot id }]. *)
Record HandleRef : Type := {
  owner : string;
  role : HandleType;
  slot_id : string;
}.

(** Modelled from the spec: the edge of the data model,
    [{ id, source handle, target handle, connection type }]. *)
Record Edge : Type := {
  edge_id : string;
  edge_source : HandleRef;
  edge_target : HandleRef;
  connection_type : EdgeType;
}.

(** Modelled from the spec: the graph, nodes and edges keyed by id. *)
Record Graph : Type := {
  nodes : gmap string Node;
  edges : gmap string Edge;
}.

(** Modelled from the spec: the empty graph the scenarios start
    with. *)
Definition empty : Graph := {| nodes := ∅; edges := ∅ |}.

(** Modelled from the spec: the table of the data model, the connection
    type derived from the (source kind, target kind) pair; a pair
    outside the table has none. *)
Definition connection_type_of (s t : ComponentTypes) : option EdgeType :=
  match s, t with
  | model, team | model, agent => Some model_connection
  | tool, agent => Some tool_connection
  | agent, team => Some participant_connection
  | _, _ => None
  end.

(** Modelled from the spec: [create(kind, config)] fails with
    [KindMismatch] unless the variant of [config] is [kind]; the id is
    newly generated. *)
Definition create (g : Graph) (k : ComponentTypes) (c : ComponentConfig)
    (lbl : string) (pos : Z * Z) : Outcome Node :=
  if decide (config_tag c = k)
  then Accepted {| node_id := fresh (dom (nodes g)); kind := k;
                   node_label := lbl; config := c; position := pos |}
  else Rejected KindMismatch.

(** Modelled from the spec: [addNode(kind, config, position)] stores the
    created node. *)
Definition addNode (g : Graph) (k : ComponentTypes) (c : ComponentConfig)
    (lbl : string) (pos : Z * Z) : Outcome (Graph * Node) :=
  match create g k c lbl pos with
  | Accepted n =>
      Accepted ({| nodes := <[node_id n := n]> (nodes g);
                   edges := edges g |}, n)
  | Rejected e => Rejected e
  end.

(** Modelled from the spec: a node with its config replaced; id, kind,
    label and position stay. *)
Definition with_config (c : ComponentConfig) (n : Node) : Node :=
  {| node_id := node_id n; kind := kind n; node_label := node_label n;
     config := c; position := position n |}.

(** Modelled from the spec: [updateConfig(node, newConfig)] replaces
    the config only if the variant tag matches. *)
Definition updateConfig (g : Graph) (id : string) (c : ComponentConfig)
  : Outcome Graph :=
  match nodes g !! id with
  | None => Rejected UnknownNode
  | Some n =>
      if decide (config_tag c = kind n)
      then Accepted {| nodes := <[id := with_config c n]> (nodes g);
                       edges := edges g |}
      else Rejected KindMismatch
  end.

(** Modelled from the spec: the slots that hold at most one attachment
    (model slot on Team and Agent, termination slot on Team). *)
Definition single_occupancy (k : ComponentTypes) (s : Slot) : bool :=
  match k, s with
  | team, model_slot | agent, model_slot | team, termination_slot => true
  | _, _ => false
  end.

(** Modelled from the spec: the edges of one connection type that come
    in to a node. *)
Definition incoming (g : Graph) (id : string) (t : EdgeType) : list Edge :=
  filter (fun e => owner (edge_target e) = id ∧ connection_type e = t)
         (map_to_list (edges g)).*2.

(** Modelled from the spec: a slot is already attached when the
    parent's config holds a reference in it or an edge of its
    connection type comes in. *)
Definition attached (g : Graph) (n : Node) (s : Slot) : bool :=
  match s with
  | model_slot =>
      bool_decide (is_Some (model_client (config n)))
      || bool_decide (incoming g (node_id n) model_connection ≠ [])
  | termination_slot =>
      bool_decide (is_Some (termination_condition (config n)))
  | participant_slot =>
      bool_decide (participants (config n) ≠ [])
      || bool_decide (incoming g (node_id n) participant_connection ≠ [])
  | tool_slot =>
      bool_decide (tools (config n) ≠ [])
      || bool_decide (incoming g (node_id n) tool_connection ≠ [])
  end.

(** Modelled from the spec: [proposeConnection(sourceNode, targetNode,
    targetSlot)], its three rejections in the order given, then the
    edge with the derived connection type. *)
Definition proposeConnection (g : Graph) (sourceNode targetNode : Node)
    (targetSlot : Slot) : Outcome Edge :=
  match connection_type_of (kind sourceNode) (kind targetNode) with
  | None => Rejected IncompatibleKinds
  | Some ty =>
      if single_occupancy (kind targetNode) targetSlot
         && attached g targetNode targetSlot
      then Rejected SlotOccupied
      else if bool_decide (is_Some (nodes g !! node_id sourceNode))
              && bool_decide (is_Some (nodes g !! node_id targetNode))
      then Accepted
             {| edge_id := fresh (dom (edges g));
                edge_source :=
                  {| owner := node_id sourceNode; role := source;
                     slot_id := node_id sourceNode +:+ "-output-handle" |};
                edge_target :=
                  {| owner := node_id targetNode; role := target;
                     slot_id := node_id targetNode +:+ "-input-handle" |};
                connection_type := ty |}
      else Rejected UnknownNode
  end.

(** Modelled from the spec: the parent's config updated to hold the
    reference to the child (a model fills the model slot, an agent is
    appended to a team's participants, a tool to an agent's tools). *)
Definition hold_reference (parent child : ComponentConfig)
  : ComponentConfig :=
  match parent, child with
  | TeamCfg t, ModelCfg m =>
      TeamCfg {| team_type := team_type t; team_model_client := Some m;
                 team_participants := team_participants t;
                 selector_prompt := selector_prompt t;
                 team_termination_condition :=
                   team_termination_condition t |}
  | TeamCfg t, AgentCfg a =>
      TeamCfg {| team_type := team_type t;
                 team_model_client := team_model_client t;
                 team_participants := team_participants t ++ [a];
                 selector_prompt := selector_prompt t;
                 team_termination_condition :=
                   team_termination_condition t |}
  | AgentCfg a, ModelCfg m =>
      AgentCfg {| agent_name := agent_name a;
                  agent_type := agent_type a;
                  agent_model_client := Some m;
                  system_message := system_message a;
                  agent_tools := agent_tools a |}
  | AgentCfg a, ToolCfg tl =>
      AgentCfg {| agent_name := agent_name a;
                  agent_type := agent_type a;
                  agent_model_client := agent_model_client a;
                  system_message := system_message a;
                  agent_tools := agent_tools a ++ [tl] |}
  | _, _ => parent
  end.

(** Modelled from the spec: a sequence with the first occurrence of a
    reference dropped. *)
Fixpoint remove_first {A} `{EqDecision A} (x : A) (l : list A) : list A :=
  match l with
  | [] => []
  | y :: rest => if decide (x = y) then rest else y :: remove_first x rest
  end.

(** Modelled from the spec: the parent's config updated to drop the
    reference to the child, the inverse of [hold_reference]. *)
Definition drop_reference (parent child : ComponentConfig)
  : ComponentConfig :=
  match parent, child with
  | TeamCfg t, ModelCfg _ =>
      TeamCfg {| team_type := team_type t; team_model_client := None;
                 team_participants := team_participants t;
                 selector_prompt := selector_prompt t;
                 team_termination_condition :=
                   team_termination_condition t |}
  | TeamCfg t, AgentCfg a =>
      TeamCfg {| team_type := team_type t;
                 team_model_client := team_model_client t;
                 team_participants := remove_first a (team_participants t);
                 selector_prompt := selector_prompt t;
                 team_termination_condition :=
                   team_termination_condition t |}
  | AgentCfg a, ModelCfg _ =>
      AgentCfg {| agent_name := agent_name a;
                  agent_type := agent_type a;
                  agent_model_client := None;
                  system_message := system_message a;
                  agent_tools := agent_tools a |}
  | AgentCfg a, ToolCfg tl =>
      AgentCfg {| agent_name := agent_name a;
                  agent_type := agent_type a;
                  agent_model_client := agent_model_client a;
                  system_message := system_message a;
                  agent_tools := remove_first tl (agent_tools a) |}
  | _, _ => parent
  end.

(** Modelled from the spec: a config update applied in place to a
    stored node. *)
Definition map_config (f : ComponentConfig -> ComponentConfig) (n : Node)
  : Node :=
  with_config (f (config n)) n.

(** Modelled from the spec: [attach(parentId, childId, slot)] wraps
    [proposeConnection] and, on success, stores the edge and makes the
    parent's config hold the reference. *)
Definition attach (g : Graph) (parentId childId : string) (slot : Slot)
  : Outcome (Graph * Edge) :=
  match nodes g !! parentId, nodes g !! childId with
  | Some parent, Some child =>
      match proposeConnection g child parent slot with
      | Accepted e =>
          Accepted
            ({| nodes :=
                  alter (map_config (fun c => hold_reference c (config child)))
                        parentId (nodes g);
                edges := <[edge_id e := e]> (edges g) |}, e)
      | Rejected err => Rejected err
      end
  | _, _ => Rejected UnknownNode
  end.

(** Modelled from the spec: the config of the edge's target updated to
    drop the reference to the edge's source. *)
Definition unreference (e : Edge) (ns : gmap string Node)
  : gmap string Node :=
  match ns !! owner (edge_source e) with
  | Some child =>
      alter (map_config (fun c => drop_reference c (config child)))
            (owner (edge_target e)) ns
  | None => ns
  end.

(** Modelled from the spec: [detach(edgeId)] removes the edge and the
    corresponding config reference. *)
Definition detach (g : Graph) (edgeId : string) : Outcome Graph :=
  match edges g !! edgeId with
  | Some e =>
      Accepted {| nodes := unreference e (nodes g);
                  edges := delete edgeId (edges g) |}
  | None => Rejected UnknownNode
  end.

(** Modelled from the spec: an edge with an endpoint on the node. *)
Definition touches (id : string) (e : Edge) : Prop :=
  owner (edge_source e) = id ∨ owner (edge_target e) = id.

#[global] Instance touches_dec id e : Decision (touches id e).
Proof. unfold touches. apply _. Defined.

(** Modelled from the spec: [removeNode(id)] removes the node, every
    edge with an endpoint on it, and every reference a parent's config
    holds to it. *)
Definition removeNode (g : Graph) (id : string) : Outcome Graph :=
  match nodes g !! id with
  | Some _ =>
      let outgoing :=
        filter (fun e => owner (edge_source e) = id)
               (map_to_list (edges g)).*2 in
      Accepted
        {| nodes := delete id (foldr unreference (nodes g) outgoing);
           edges := filter (fun ke => ¬ touches id ke.2) (edges g) |}
  | None => Rejected UnknownNode
  end.

(** Modelled from the spec: the mutations the assembler offers. *)
Inductive Op : Type :=
| AddNode (k : ComponentTypes) (c : ComponentConfig) (lbl : string)
          (pos : Z * Z)
| UpdateConfig (id : string) (c : ComponentConfig)
| Attach (parentId childId : string) (slot : Slot)
| Detach (edgeId : string)
| RemoveNode (id : string).

(** Modelled from the spec: the graph after an operation, unchanged
    when the operation was rejected. *)
Definition graph_of {A} (g : Graph) (r : Outcome A) (f : A -> Graph)
  : Graph :=
  match r with
  | Accepted a => f a
  | Rejected _ => g
  end.

(** Modelled from the spec: one dispatched event; a rejected operation
    leaves the graph as it was. *)
Definition step (g : Graph) (op : Op) : Graph :=
  match op with
  | AddNode k c lbl pos => graph_of g (addNode g k c lbl pos) fst
  | UpdateConfig id c => graph_of g (updateConfig g id c) (fun g' => g')
  | Attach p c s => graph_of g (attach g p c s) fst
  | Detach e => graph_of g (detach g e) (fun g' => g')
  | RemoveNode id => graph_of g (removeNode g id) (fun g' => g')
  end.

(** Modelled from the spec: the graph after a sequence of events,
    processed one at a time in order, starting from [g]. *)
Definition run (g : Graph) (ops : list Op) : Graph :=
  fold_left step ops g.

(** *** Well-formedness of a graph *)

Definition kind_of (ns : gmap string Node) (id : string)
  : option ComponentTypes :=
  kind <$> ns !! id.

(** A stored node carries its key as id and a config of its kind. *)
Definition node_ok (id : string) (n : Node) : Prop :=
  node_id n = id ∧ config_tag (config n) = kind n.

Definition well_kinded (g : Graph) : Prop :=
  map_Forall node_ok (nodes g).

(** Both endpoints of the edge are stored, and the edge's connection
    type is the one the table derives from their kinds. *)
Definition edge_derived (ns : gmap string Node) (e : Edge) : Prop :=
  ∃ ks kt,
    kind_of ns (owner (edge_source e)) = Some ks
    ∧ kind_of ns (owner (edge_target e)) = Some kt
    ∧ connection_type_of ks kt = Some (connection_type e).

Definition edges_derived (g : Graph) : Prop :=
  map_Forall (fun _ e => edge_derived (nodes g) e) (edges g).

Definition consistent (g : Graph) : Prop :=
  well_kinded g ∧ edges_derived g.

End Assembler.

(** An edge payload that carries no connection type: [data] is absent,
    or it is an object without a [type] property. *)
Definition no_connection_type (data : JS.value) : Prop :=
  data = JS.undefined
  ∨ ∃ fields, data = JS.object fields ∧ has_field "type" fields = false.

(** ** Example components *)

Definition gpt_x : ModelConfig :=
  {| model_type := "OpenAIChatCompletionClient"; model_name := "gpt-x";
     base_url := None |}.

Definition gpt_y : ModelConfig :=
  {| model_type := "OpenAIChatCompletionClient"; model_name := "gpt-y";
     base_url := None |}.

Definition assistant : AgentConfig :=
  {| agent_name := "assistant"; agent_type := "AssistantAgent";
     agent_model_client := None;
     system_message := None; agent_tools := [] |}.

Definition round_robin : TeamConfig :=
  {| team_type := "RoundRobinGroupChat"; team_model_client := None;
     team_participants := []; selector_prompt := None;
     team_termination_condition := None |}.

Definition agent_with_model : ComponentConfig :=
  AgentCfg {| agent_name := "assistant"; agent_type := "AssistantAgent";
              agent_model_client := Some gpt_x;
              system_message := None; agent_tools := [] |}.

Definition team_holding_model : ComponentConfig :=
  TeamCfg {| team_type := "RoundRobinGroupChat";
             team_model_client := Some gpt_x;
             team_participants := []; selector_prompt := None;
             team_termination_condition := None |}.

(** The events that build a team (id 0) with a model (id 1) attached,
    and put a second model (id 2) on the canvas. *)
Definition team_with_model_events : list Assembler.Op :=
  [ Assembler.AddNode team (TeamCfg round_robin) "T1" (0, 0)%Z;
    Assembler.AddNode model (ModelCfg gpt_x) "M1" (0, 100)%Z;
    Assembler.Attach "0" "1" Assembler.model_slot;
    Assembler.AddNode model (ModelCfg gpt_y) "M2" (0, 200)%Z ].

Definition team_with_model : Assembler.Graph :=
  Assembler.run Assembler.empty team_with_model_events.

(** The team, the second model and the model connection of that
    graph. *)
Definition the_team : Assembler.Node :=
  {| Assembler.node_id := "0"; Assembler.kind := team;
     Assembler.node_label := "T1"; Assembler.config := team_holding_model;
     Assembler.position := (0, 0)%Z |}.

Definition the_second_model : Assembler.Node :=
  {| Assembler.node_id := "2"; Assembler.kind := model;
     Assembler.node_label := "M2"; Assembler.config := ModelCfg gpt_y;
     Assembler.position := (0, 200)%Z |}.

Definition the_model_edge : Assembler.Edge :=
  {| Assembler.edge_id := "0";
     Assembler.edge_source :=
       {| Assembler.owner := "1"; Assembler.role := source;
          Assembler.slot_id := "1-output-handle" |};
     Assembler.edge_target :=
       {| Assembler.owner := "0"; Assembler.role := target;
          Assembler.slot_id := "0-input-handle" |};
     Assembler.connection_type := model_connection |}.

(** The events of the agent scenario: a model (id 0), an agent (id 1)
    the model is attached to, and a second model (id 2). *)
Definition agent_with_model_events : list Assembler.Op :=
  [ Assembler.AddNode model (ModelCfg gpt_x) "M1" (0, 0)%Z;
    Assembler.AddNode agent (AgentCfg assistant) "A1" (0, 100)%Z;
    Assembler.Attach "1" "0" Assembler.model_slot;
    Assembler.AddNode model (ModelCfg gpt_y) "M2" (0, 200)%Z ].

(** A model dragged with the pointer over the zone, and away from it. *)
Definition model_over_zone : UseDroppable :=
  {| isOver := true; active := dragItem model |}.

Definition model_away_from_zone : UseDroppable :=
  {| isOver := false; active := dragItem model |}.

(** The same drag with the pointer over the zone, the active item
    carrying an id besides its payload. *)
Definition model_over_zone_with_id : UseDroppable :=
  {| isOver := true;
     active := JS.object [("id", JS.str "drag-7");
                          ("data", JS.lookup_field "data"
                                     (spread (dragItem model)))] |}.

(** Edge props that carry a style of their own, and edge props that do
    not. *)
Definition styled_edge_props : list (string * JS.value) :=
  [("id", JS.str "e1"); ("style", JS.object [("stroke", JS.str "red")])].

Definition plain_edge_props : list (string * JS.value) :=
  [("id", JS.str "e1"); ("source", JS.str "m1")].

(** Edge props as the canvas hands them over for an edge that was given
    no style: the [style] entry is there, and is [undefined]. *)
Definition unstyled_edge_props : list (string * JS.value) :=
  [("id", JS.str "e1"); ("source", JS.str "m1"); ("style", JS.undefined)].

Definition straight_path (props : list (string * JS.value))
  : JS.completion string :=
  JS.Normal "M0,0".

(** The drag of a model away from the zone, the active item carrying an
    id besides its payload. *)
Definition model_away_from_zone_with_id : UseDroppable :=
  {| isOver := false;
     active := JS.object [("id", JS.str "drag-7");
                          ("data", JS.lookup_field "data"
                                     (spread (dragItem model)))] |}.

(** ** Node sections

    The text the Team and Agent components list under their section
    titles, read from the config through the same cast as the handles. *)

Record TeamSections : Type := {
  team_model_row : option string;
  team_participants_count : nat;
  team_participant_rows : list string;
  team_termination_row : option string;
}.

(** The three [NodeSection]s of [TeamNode]: the model's name when
    [config.model_client] is set, the count in the Participants title,
    one row per participant with its name, the termination type when
    [config.termination_condition] is set. *)
Definition TeamNode_sections (config : ComponentConfig) : TeamSections :=
  let participantCount := length (participants config) in
  {| team_model_row := model_name <$> model_client config;
     team_participants_count := participantCount;
     team_participant_rows := agent_name <$> participants config;
     team_termination_row :=
       termination_type <$> termination_condition config |}.

Record AgentSections : Type := {
  agent_model_row : option string;
  agent_tool_rows : list string;
}.

(** The two [NodeSection]s of [AgentNode]: the model's name when
    [config.model_client] is set, and, under
    [config.tools && toolCount > 0], one row per tool with its name. *)
Definition AgentNode_sections (config : ComponentConfig) : AgentSections :=
  let toolCount := length (tools config) in
  {| agent_model_row := model_name <$> model_client config;
     agent_tool_rows :=
       if bool_decide (0 < toolCount) then tool_name <$> tools config
       else [] |}.

(** The characters of a string, to compare ids by their endings. *)
Definition chars (s : string) : list Ascii.ascii :=
  String.list_ascii_of_string s.

(** Two endings are comparable when one is an ending of the other. *)
Definition comparable (s1 s2 : string) : bool :=
  bool_decide (chars s1 `suffix_of` chars s2)
  || bool_decide (chars s2 `suffix_of` chars s1).

(** The endings of the handle ids and of the zone ids. *)
Definition handle_endings : list string :=
  ["-input-handle"; "-output-handle"].

Definition zone_endings : list string :=
  ["-model-zone"; "-agent-zone"; "-termination-zone"; "-tool-zone"].

(** The (node kind, dropped kind) pairs some drop zone accepts. *)
Definition drop_table : list (ComponentTypes * ComponentTypes) :=
  [ (team, model); (team, agent); (team, termination);
    (agent, model); (agent, tool) ].

(** ** The sidebar

    The navigation sidebar: the class-name helper, the header updates it
    requests and what it renders for each navigation entry.  The config
    store is not among the sources; a header update is represented by
    the argument [setHeader] is called with. *)

Module Sidebar.

Inductive Icon : Type := MessagesSquare | Blocks | Settings.

Record Breadcrumb : Type := {
  crumb_name : string;
  crumb_href : string;
  crumb_current : option bool;
}.

Record INavItem : Type := {
  name : string;
  href : string;
  icon : Icon;
  breadcrumbs : option (list Breadcrumb);
}.

Definition navigation : list INavItem :=
  [ {| name := "Playground"; href := "/"; icon := MessagesSquare;
       breadcrumbs :=
         Some [ {| crumb_name := "Playground"; crumb_href := "/";
                   crumb_current := Some true |} ] |};
    {| name := "Build"; href := "/build"; icon := Blocks;
       breadcrumbs :=
         Some [ {| crumb_name := "Build"; crumb_href := "/build";
                   crumb_current := Some true |} ] |} ].

(** An argument of [classNames]: [string | undefined | boolean]. *)
Inductive ClassValue : Type :=
| Str (s : string)
| Undefined
| Bool (b : bool).

(** [Boolean(c)] *)
Definition to_boolean (c : ClassValue) : bool :=
  match c with
  | Str s => negb (String.eqb s EmptyString)
  | Undefined => false
  | Bool b => b
  end.

(** The text [join] writes for an element. *)
Definition to_text (c : ClassValue) : string :=
  match c with
  | Str s => s
  | Undefined => EmptyString
  | Bool b => if b then "true" else "false"
  end.

(** [classes.filter(Boolean).join(" ")] *)
Definition classNames (classes : list ClassValue) : string :=
  String.concat " " (to_text <$> List.filter to_boolean classes).

(** [cond && "cls"] as an argument of [classNames]. *)
Definition when (cond : bool) (cls : string) : ClassValue :=
  if cond then Str cls else Bool false.

(** The argument of a [setHeader] call. *)
Record Header : Type := {
  title : string;
  header_breadcrumbs : option (list Breadcrumb);
}.

Definition settingsHeader : Header :=
  {| title := "Settings";
     header_breadcrumbs :=
       Some [ {| crumb_name := "Settings"; crumb_href := "/settings";
                 crumb_current := Some true |} ] |}.

(** [handleNavClick(item)]: the header it sets. *)
Definition handleNavClick (item : INavItem) : Header :=
  {| title := name item; header_breadcrumbs := breadcrumbs item |}.

(** [setNavigationHeader(path)]: the header it sets, if it sets one.
    The navigation item is the first whose [href] is the path; failing
    that, the settings path has its own header; any other path sets
    nothing. *)
Definition setNavigationHeader (path : string) : option Header :=
  match List.find (fun item => String.eqb (href item) path) navigation with
  | Some navItem =>
      Some {| title := name navItem;
              header_breadcrumbs := breadcrumbs navItem |}
  | None =>
      if String.eqb path "/settings" then Some settingsHeader else None
  end.

(** What the sidebar renders for one entry: the link with its classes,
    the label inside it, the tooltip around it, and the header its click
    sets. *)
Record NavEntry : Type := {
  entry_to : string;
  entry_className : string;
  entry_icon : Icon;
  entry_icon_className : string;
  entry_label : option string;
  entry_tooltip : option string;
  entry_onClick : Header;
}.

(** [const showFull = isMobile || isExpanded] *)
Definition showFull (isMobile isExpanded : bool) : bool :=
  isMobile || isExpanded.

(** One item of [navigation.map(...)]. *)
Definition navEntry (link : string) (isMobile isExpanded : bool)
    (item : INavItem) : NavEntry :=
  let showFull := showFull isMobile isExpanded in
  let isActive := String.eqb (href item) link in
  {| entry_to := href item;
     entry_className :=
       classNames
         [ Str "group flex gap-x-3 rounded-md p-2 text-sm font-medium";
           when (negb showFull) "justify-center";
           Str (if isActive then "bg-secondary/50 text-accent"
                else "text-secondary hover:bg-secondary/50 hover:text-accent") ];
     entry_icon := icon item;
     entry_icon_className :=
       classNames
         [ Str "h-6 w-6 shrink-0";
           Str (if isActive then "text-accent"
                else "text-secondary group-hover:text-accent") ];
     entry_label := if showFull then Some (name item) else None;
     entry_tooltip :=
       if negb showFull && negb isMobile then Some (name item) else None;
     entry_onClick := handleNavClick item |}.

(** The Settings entry at the bottom, in its two renderings. *)
Definition settingsEntry (isMobile isExpanded : bool) : NavEntry :=
  let showFull := showFull isMobile isExpanded in
  if negb showFull && negb isMobile
  then
    {| entry_to := "/settings";
       entry_className :=
         classNames
           [ Str "group flex gap-x-3 rounded-md p-2 text-sm font-medium";
             Str "text-primary hover:text-accent hover:bg-secondary";
             when (negb showFull) "justify-center" ];
       entry_icon := Settings;
       entry_icon_className :=
         "h-6 w-6 shrink-0 text-secondary group-hover:text-accent";
       entry_label := None;
       entry_tooltip := Some "Settings";
       entry_onClick := settingsHeader |}
  else
    {| entry_to := "/settings";
       entry_className :=
         "group flex gap-x-3 rounded-md p-2 text-sm font-medium text-primary hover:text-accent hover:bg-secondary";
       entry_icon := Settings;
       entry_icon_className :=
         "h-6 w-6 shrink-0 text-secondary group-hover:text-accent";
       entry_label := if showFull then Some "Settings" else None;
       entry_tooltip := None;
       entry_onClick := settingsHeader |}.

(** What [Sidebar] renders. *)
Record View : Type := {
  container_className : string;
  logo_className : string;
  title_block : option (option string * option string);
  list_className : string;
  entries : list NavEntry;
  settings : NavEntry;
}.

(** [Sidebar({ link, meta, isMobile })], given the store's
    [sidebar.isExpanded]; [meta] is its optional title and
    description. *)
Definition Sidebar (link : string) (meta : option (string * string))
    (isMobile isExpanded : bool) : View :=
  let showFull := showFull isMobile isExpanded in
  {| container_className :=
       classNames
         [ Str "flex grow flex-col gap-y-5 overflow-y-auto border-r border-secondary bg-primary";
           Str "transition-all duration-300 ease-in-out";
           Str (if showFull then "w-72 px-6" else "w-16 px-2") ];
     logo_className :=
       "flex h-16 items-center "
       +:+ (if showFull then "gap-x-3" else "ml-2");
     title_block :=
       if showFull then Some (fst <$> meta, snd <$> meta) else None;
     list_className :=
       classNames [ Str "-mx-2 space-y-1"; when (negb showFull) "items-center" ];
     entries := navEntry link isMobile isExpanded <$> navigation;
     settings := settingsEntry isMobile isExpanded |}.

End Sidebar.

(** * Properties *)

(** ** Optional chaining never throws *)

Lemma opt_get_total v p : ∃ x, JS.opt_get v p = JS.Normal x.
Proof. destruct v; cbn; eauto. Qed.

Lemma opt_path_total v ps : ∃ x, JS.opt_path v ps = JS.Normal x.
Proof.
  revert v. induction ps as [|p ps IH]; intros v; cbn; [eauto|].
  destruct (opt_get_total v p) as [x ->]. cbn. apply IH.
Qed.

Lemma opt_path_undefined ps : JS.opt_path JS.undefined ps = JS.Normal JS.undefined.
Proof. induction ps as [|p ps IH]; cbn; auto. Qed.

(** Where the optional path reaches a truthy value, every object on the
    way exists, so the plain path reads the same value. *)
Lemma opt_path_truthy v ps x :
  JS.opt_path v ps = JS.Normal x → JS.truthy x = true →
  JS.path v ps = JS.Normal x.
Proof.
  revert v. induction ps as [|p ps IH]; intros v Hp Ht; cbn in *; [done|].
  unfold JS.opt_get in Hp. destruct (JS.nullish v) eqn:Hn.
  - cbn in Hp. rewrite opt_path_undefined in Hp.
    injection Hp as <-. discriminate Ht.
  - destruct (JS.get v p) as [y|m] eqn:Hg; cbn in *; [by apply IH|done].
Qed.

(** The legality expression in closed form: it never throws, and its
    truth value is a conjunction of the three operands' truth values. *)
Lemma canDrop_normal h acc :
  ∃ t, draggedType (active h) = JS.Normal t
       ∧ canDrop h acc
         = JS.Normal (isOver h && JS.truthy t && includes acc t).
Proof.
  unfold canDrop, isValidDrop, draggedType.
  destruct (opt_path_total (active h) ["data"; "current"; "current"; "type"])
    as [t Ht].
  exists t. split; [done|]. rewrite Ht.
  destruct (isOver h); cbn [JS.and_then JS.bind JS.truthy andb]; [|done].
  destruct (JS.truthy t) eqn:Htr; cbn [JS.bind].
  - rewrite (opt_path_truthy _ _ _ Ht Htr). cbn.
    by destruct (includes acc t).
  - by rewrite Htr.
Qed.

Lemma isValidDrop_normal h acc : ∃ v, isValidDrop h acc = JS.Normal v.
Proof.
  destruct (canDrop_normal h acc) as (t & _ & Hc). unfold canDrop in Hc.
  destruct (isValidDrop h acc) as [v|m]; [eauto|discriminate Hc].
Qed.

(** C3: a zone whose [accepts] is empty reports every drop as not legal,
    and so does any zone when there is no active dragged item ([active]
    is [null] or [undefined]); in both cases the check evaluates normally
    to the verdict [false], it does not throw. *)
Theorem canDrop_rejects_empty_accepts_and_no_active :
  (∀ h, canDrop h [] = JS.Normal false)
  ∧ (∀ over acc,
       canDrop {| isOver := over; active := JS.null |} acc = JS.Normal false
       ∧ canDrop {| isOver := over; active := JS.undefined |} acc
         = JS.Normal false).
Proof.
  split.
  - intros h. destruct (canDrop_normal h []) as (t & _ & ->).
    cbn. by rewrite !andb_false_r.
  - intros over acc. split; by destruct over.
Qed.

(** C5: the legality check is total: for every drag context, whatever
    value [active] is and whichever of [data], [current], [current.type]
    are missing, [isValidDrop] evaluates to a value, the verdict is a
    boolean, and the zone renders its class; no [TypeError] is thrown. *)
Theorem canDrop_total :
  ∀ h p, (∃ v, isValidDrop h (accepts p) = JS.Normal v)
         ∧ (∃ b, canDrop h (accepts p) = JS.Normal b)
         ∧ (∃ cls, DroppableZone h p = JS.Normal cls).
Proof.
  intros h p. split; [apply isValidDrop_normal|].
  destruct (canDrop_normal h (accepts p)) as (t & _ & Hc).
  split; [eauto|]. unfold DroppableZone. rewrite Hc. cbn. eauto.
Qed.

(** C4, as stated, fails: with the same [accepts] and the same dragged
    kind, the verdict is [true] while the pointer is over the zone and
    [false] while it is not. *)
Lemma canDrop_depends_on_isOver :
  draggedType (active model_over_zone)
  = draggedType (active model_away_from_zone)
  ∧ canDrop model_over_zone [model] = JS.Normal true
  ∧ canDrop model_away_from_zone [model] = JS.Normal false
  ∧ ¬ (∀ acc h1 h2,
         draggedType (active h1) = draggedType (active h2) →
         canDrop h1 acc = canDrop h2 acc).
Proof.
  split_and!; [done..|].
  intros H.
  specialize (H [model] model_over_zone model_away_from_zone eq_refl).
  discriminate H.
Qed.

(** C4 (amended): the verdict is a function of whether the pointer is
    over the zone, the zone's accepted kinds and the dragged item's kind:
    two invocations that agree on these three give the same verdict,
    whatever else the active item carries.  When the pointer is not over
    the zone the verdict is always reject.  The check is an expression
    over its inputs and writes nothing. *)
Theorem canDrop_function_of_over_accepts_kind h1 h2 acc :
  isOver h1 = isOver h2 →
  draggedType (active h1) = draggedType (active h2) →
  canDrop h1 acc = canDrop h2 acc
  ∧ (isOver h1 = false → canDrop h1 acc = JS.Normal false).
Proof.
  intros Ho Ht.
  destruct (canDrop_normal h1 acc) as (t1 & Ht1 & ->).
  destruct (canDrop_normal h2 acc) as (t2 & Ht2 & ->).
  rewrite Ht1, Ht2 in Ht. injection Ht as ->. split.
  - by rewrite Ho.
  - by intros ->.
Qed.

Lemma canDrop_function_of_over_accepts_kind_witness :
  (isOver model_over_zone = isOver model_over_zone_with_id
   ∧ draggedType (active model_over_zone)
     = draggedType (active model_over_zone_with_id)
   ∧ canDrop model_over_zone [model; tool]
     = canDrop model_over_zone_with_id [model; tool])
  ∧ (isOver model_away_from_zone = isOver model_away_from_zone_with_id
     ∧ draggedType (active model_away_from_zone)
       = draggedType (active model_away_from_zone_with_id)
     ∧ isOver model_away_from_zone = false
     ∧ canDrop model_away_from_zone [model; tool]
       = canDrop model_away_from_zone_with_id [model; tool]
     ∧ canDrop model_away_from_zone [model; tool] = JS.Normal false).
Proof.
  destruct (canDrop_function_of_over_accepts_kind
              model_over_zone model_over_zone_with_id [model; tool]
              eq_refl eq_refl) as [Hover _].
  destruct (canDrop_function_of_over_accepts_kind
              model_away_from_zone model_away_from_zone_with_id
              [model; tool] eq_refl eq_refl) as [Haway Hreject].
  split.
  - split_and!; [reflexivity..|exact Hover].
  - split_and!; [reflexivity..|exact Haway|exact (Hreject eq_refl)].
Defined.

(** ** Connection handles *)

(** C1: what [AgentNode] renders.  Both of its handles have role
    [target]: the left one ([-input-handle]) and the right one, whose id
    is [-output-handle] but whose [type] is "target" all the same.  An
    Agent node therefore exposes two input handles and no output handle
    (role [source]), for every id and every configuration. *)
Theorem AgentNode_handles_both_target id config :
  handles (AgentNode id config)
  = [ input_handle id;
      {| h_type := target; h_position := Right;
         h_id := id +:+ "-output-handle";
         h_className := "my-right-handle" |} ]
  ∧ length (handles_of target (AgentNode id config)) = 2
  ∧ handles_of source (AgentNode id config) = []
  ∧ output_handle id ∉ handles (AgentNode id config).
Proof.
  split_and!; try reflexivity.
  cbn. rewrite !not_elem_of_cons. split_and!; try discriminate.
  apply not_elem_of_nil.
Qed.

(** C6: a Team node renders its input handle (role [target]) exactly
    when its configuration has a model client or a termination condition,
    and it always renders exactly one output handle (role [source]). *)
Theorem TeamNode_handles id (t : TeamConfig) :
  (input_handle id ∈ handles (TeamNode id (TeamCfg t))
   ↔ is_Some (team_model_client t) ∨ is_Some (team_termination_condition t))
  ∧ (handles_of target (TeamNode id (TeamCfg t))
     = if bool_decide (is_Some (team_model_client t)
                       ∨ is_Some (team_termination_condition t))
       then [input_handle id] else [])
  ∧ handles_of source (TeamNode id (TeamCfg t)) = [output_handle id].
Proof.
  unfold TeamNode, handles_of. cbn [handles model_client
    termination_condition].
  destruct (team_model_client t) as [m|], (team_termination_condition t) as [c|];
    cbn; (split_and!; [|done..]).
  1-3: split; [intros _; eauto|intros _; apply elem_of_cons; by left].
  split.
  - rewrite list_elem_of_singleton. discriminate.
  - intros [[? [=]]|[? [=]]].
Qed.

(** C7: Model, Tool and Termination nodes render exactly one handle, an
    output handle (role [source]), and no input handle, whatever their
    configuration. *)
Theorem leaf_nodes_single_output_handle id config :
  (handles (ModelNode id config) = [output_handle id]
   ∧ handles_of source (ModelNode id config) = [output_handle id]
   ∧ handles_of target (ModelNode id config) = [])
  ∧ (handles (ToolNode id config) = [output_handle id]
     ∧ handles_of source (ToolNode id config) = [output_handle id]
     ∧ handles_of target (ToolNode id config) = [])
  ∧ (handles (TerminationNode id config) = [output_handle id]
     ∧ handles_of source (TerminationNode id config) = [output_handle id]
     ∧ handles_of target (TerminationNode id config) = []).
Proof. by split_and!. Qed.

(** ** Edge rendering *)

Lemma lookup_field_absent k fields :
  has_field k fields = false → JS.lookup_field k fields = JS.undefined.
Proof.
  induction fields as [|[k' v] fs IH]; cbn; [done|].
  destruct (String.eqb k' k); [done|auto].
Qed.

Lemma lookup_set_field_eq k v fields :
  JS.lookup_field k (set_field k v fields) = v.
Proof.
  induction fields as [|[k' v'] fs IH]; cbn.
  - by rewrite String.eqb_refl.
  - destruct (String.eqb k' k) eqn:E; cbn.
    + by rewrite String.eqb_refl.
    + by rewrite E.
Qed.

Lemma lookup_set_field_ne k k' v fields :
  String.eqb k' k = false →
  JS.lookup_field k (set_field k' v fields) = JS.lookup_field k fields.
Proof.
  intros Hne. induction fields as [|[k2 v2] fs IH]; cbn.
  - by rewrite Hne.
  - destruct (String.eqb k2 k') eqn:E; cbn.
    + apply String.eqb_eq in E as ->. by rewrite Hne.
    + by rewrite IH.
Qed.

Lemma lookup_field_app k l1 l2 :
  JS.lookup_field k (l1 ++ l2)
  = if has_field k l1 then JS.lookup_field k l1 else JS.lookup_field k l2.
Proof.
  induction l1 as [|[k' v] l1 IH]; cbn; [done|].
  by destruct (String.eqb k' k).
Qed.

Lemma has_field_rev k fields :
  has_field k (rev fields) = has_field k fields.
Proof.
  unfold has_field. induction fields as [|kv fs IH]; cbn; [done|].
  rewrite existsb_app, IH. cbn. rewrite orb_false_r. apply orb_comm.
Qed.

(** Spreading [extra] over [base]: a key of [extra] reads as its last
    occurrence there, any other key as in [base]. *)
Lemma lookup_assign k base extra :
  JS.lookup_field k (assign base extra)
  = if has_field k extra then JS.lookup_field k (rev extra)
    else JS.lookup_field k base.
Proof.
  unfold assign. revert base.
  induction extra as [|[k' v] extra IH]; intros base; cbn; [done|].
  rewrite IH, lookup_field_app.
  change (existsb _ extra) with (has_field k extra).
  rewrite has_field_rev.
  destruct (has_field k extra).
  - by rewrite orb_true_r.
  - rewrite orb_false_r. cbn. destruct (String.eqb k' k) eqn:E.
    + apply String.eqb_eq in E as ->. apply lookup_set_field_eq.
    + by apply lookup_set_field_ne.
Qed.

Lemma edgeType_fallback data :
  no_connection_type data →
  edgeType data = JS.Normal (JS.str "model-connection").
Proof.
  intros [->|(fields & -> & Hf)]; [done|].
  unfold edgeType. cbn. by rewrite lookup_field_absent.
Qed.

(** React's reserved names apart, the component receives each attribute
    as written. *)
Lemma lookup_delivered k attrs :
  JS.lookup_field k (delivered attrs)
  = if reserved k then JS.undefined else JS.lookup_field k attrs.
Proof.
  unfold delivered. induction attrs as [|[k' v] attrs IH].
  - by destruct (reserved k).
  - cbn [List.filter fst JS.lookup_field].
    destruct (String.eqb k' k) eqn:E.
    + apply String.eqb_eq in E as ->.
      destruct (reserved k); cbn [negb JS.lookup_field]; [exact IH|].
      by rewrite String.eqb_refl.
    + destruct (reserved k'); cbn [negb JS.lookup_field];
        rewrite ?E; exact IH.
Qed.

(** C10: what the renderer does with an edge whose data carries no
    connection type (data absent, or without a [type] property), once
    the path is computed.  It falls back to the model-connection type
    and builds the model-connection style, but the remaining edge props
    are spread after [style]: when they hold a [style] entry, of any
    value, [BaseEdge] is drawn with that entry and the style built is
    discarded.  Only an edge whose props hold no [style] entry is drawn
    with the model-connection style. *)
Theorem CustomEdge_style_replaced_by_props
    (getBezierPath : list (string * JS.value) → JS.completion string)
    data props path :
  no_connection_type data →
  getBezierPath props = JS.Normal path →
  edgeType data = JS.Normal (JS.str "model-connection")
  ∧ edgeStyle data = JS.Normal model_connection_style
  ∧ ∃ el, CustomEdge getBezierPath data props = JS.Normal el
          ∧ drawn_style el
            = if has_field "style" props
              then JS.lookup_field "style" (rev props)
              else model_connection_style.
Proof.
  intros Hd Hp. pose proof (edgeType_fallback _ Hd) as Ht.
  assert (edgeStyle data = JS.Normal model_connection_style) as Hs
    by (unfold edgeStyle; by rewrite Ht).
  split_and!; [done..|].
  unfold CustomEdge. rewrite Hp, Hs. cbn [JS.bind]. eexists. split; [done|].
  unfold drawn_style. rewrite lookup_delivered, lookup_assign.
  cbn [reserved RESERVED_PROPS existsb String.eqb Ascii.eqb Bool.eqb orb].
  by destruct (has_field "style" props).
Qed.

Lemma CustomEdge_style_replaced_by_props_witness :
  no_connection_type JS.undefined
  ∧ straight_path styled_edge_props = JS.Normal "M0,0"
  ∧ edgeStyle JS.undefined = JS.Normal model_connection_style
  ∧ ∃ el, CustomEdge straight_path JS.undefined styled_edge_props
          = JS.Normal el
          ∧ drawn_style el = JS.object [("stroke", JS.str "red")]
          ∧ drawn_style el ≠ model_connection_style.
Proof.
  assert (no_connection_type JS.undefined) as Hd by (by left).
  split; [exact Hd|]. split; [reflexivity|].
  destruct (CustomEdge_style_replaced_by_props straight_path JS.undefined
              styled_edge_props "M0,0" Hd eq_refl)
    as (_ & Hs & el & Hel & Hst).
  split; [exact Hs|]. exists el. split; [exact Hel|].
  rewrite Hst. split; [reflexivity|discriminate].
Defined.

(** The same for an edge that was given no style, as the canvas hands it
    over: the [style] entry is [undefined], and so is the style
    [BaseEdge] is drawn with. *)
Example CustomEdge_undefined_style_entry :
  ∃ el, CustomEdge straight_path JS.undefined unstyled_edge_props
        = JS.Normal el
        ∧ drawn_style el = JS.undefined.
Proof. eexists. by split. Qed.

(** ** The assembler keeps graphs consistent *)

Implicit Types (ns : gmap string Assembler.Node) (g : Assembler.Graph).
Implicit Types (i j id eid : string) (e : Assembler.Edge).

Lemma hold_reference_tag p c :
  config_tag (Assembler.hold_reference p c) = config_tag p.
Proof. by destruct p, c. Qed.

Lemma drop_reference_tag p c :
  config_tag (Assembler.drop_reference p c) = config_tag p.
Proof. by destruct p, c. Qed.

(** Rewriting the config of one node leaves every stored kind alone. *)
Lemma kind_of_alter_config f i ns j :
  Assembler.kind_of (alter (Assembler.map_config f) i ns) j
  = Assembler.kind_of ns j.
Proof.
  unfold Assembler.kind_of. rewrite lookup_alter. case_decide as Hij; [|done].
  subst j. by destruct (ns !! i).
Qed.

Lemma node_ok_alter_config f i ns :
  (∀ c, config_tag (f c) = config_tag c) →
  map_Forall Assembler.node_ok ns →
  map_Forall Assembler.node_ok (alter (Assembler.map_config f) i ns).
Proof.
  intros Hf Hok j n. rewrite lookup_alter_Some.
  intros [(-> & x & Hx & ->)|(_ & Hj)]; [|by apply Hok].
  destruct (Hok _ _ Hx) as [Hid Htag]. split; [done|].
  cbn. by rewrite Hf.
Qed.

Lemma kind_of_unreference e ns j :
  Assembler.kind_of (Assembler.unreference e ns) j = Assembler.kind_of ns j.
Proof.
  unfold Assembler.unreference.
  destruct (ns !! _); [apply kind_of_alter_config|done].
Qed.

Lemma node_ok_unreference e ns :
  map_Forall Assembler.node_ok ns →
  map_Forall Assembler.node_ok (Assembler.unreference e ns).
Proof.
  intros Hok. unfold Assembler.unreference. destruct (ns !! _); [|done].
  apply node_ok_alter_config; [|done]. intros c. apply drop_reference_tag.
Qed.

Lemma kind_of_unreference_all es ns j :
  Assembler.kind_of (foldr Assembler.unreference ns es) j
  = Assembler.kind_of ns j.
Proof.
  induction es as [|e es IH]; cbn; [done|]. by rewrite kind_of_unreference.
Qed.

Lemma node_ok_unreference_all es ns :
  map_Forall Assembler.node_ok ns →
  map_Forall Assembler.node_ok (foldr Assembler.unreference ns es).
Proof.
  intros Hok. induction es as [|e es IH]; cbn; [done|].
  by apply node_ok_unreference.
Qed.

(** An edge stays derived as long as the kinds stored under its two
    endpoints stay. *)
Lemma edge_derived_mono ns (ns' : gmap string Assembler.Node) e :
  (∀ j k, Assembler.kind_of ns j = Some k → Assembler.kind_of ns' j = Some k) →
  Assembler.edge_derived ns e → Assembler.edge_derived ns' e.
Proof. intros H (ks & kt & Hs & Ht & Hc). exists ks, kt. auto. Qed.

Local Ltac split_consistent :=
  split; [unfold Assembler.well_kinded | unfold Assembler.edges_derived];
  cbn [Assembler.nodes Assembler.edges].

Lemma consistent_empty : Assembler.consistent Assembler.empty.
Proof. split; apply map_Forall_empty. Qed.

Lemma addNode_consistent g k c lbl pos g' n :
  Assembler.consistent g →
  Assembler.addNode g k c lbl pos = Assembler.Accepted (g', n) →
  Assembler.consistent g'.
Proof.
  intros [Hn He]. unfold Assembler.addNode, Assembler.create.
  case_decide as Htag; [|done]. intros [= <- <-].
  pose proof (is_fresh (dom (Assembler.nodes g))) as Hfresh.
  rewrite not_elem_of_dom in Hfresh.
  split_consistent.
  - apply map_Forall_insert_2; [done|exact Hn].
  - intros eid e Hl. cbn. eapply edge_derived_mono; [|by eapply He].
    intros j kj. unfold Assembler.kind_of. rewrite lookup_insert.
    case_decide as Hj; [|done]. subst j. by rewrite Hfresh.
Qed.

Lemma updateConfig_consistent g id c g' :
  Assembler.consistent g →
  Assembler.updateConfig g id c = Assembler.Accepted g' →
  Assembler.consistent g'.
Proof.
  intros [Hn He]. unfold Assembler.updateConfig.
  destruct (Assembler.nodes g !! id) as [n|] eqn:Hid; [|done].
  case_decide as Htag; [|done]. intros [= <-].
  destruct (Hn _ _ Hid) as [Hi _]. split_consistent.
  - apply map_Forall_insert_2; [done|exact Hn].
  - intros eid e Hl. cbn. eapply edge_derived_mono; [|by eapply He].
    intros j kj. unfold Assembler.kind_of. rewrite lookup_insert.
    case_decide as Hj; [|done]. subst j. by rewrite Hid.
Qed.

Lemma proposeConnection_accepted g s t slot e :
  Assembler.proposeConnection g s t slot = Assembler.Accepted e →
  Assembler.owner (Assembler.edge_source e) = Assembler.node_id s
  ∧ Assembler.owner (Assembler.edge_target e) = Assembler.node_id t
  ∧ Assembler.connection_type_of (Assembler.kind s) (Assembler.kind t)
    = Some (Assembler.connection_type e)
  ∧ Assembler.edge_id e = fresh (dom (Assembler.edges g)).
Proof.
  unfold Assembler.proposeConnection.
  destruct (Assembler.connection_type_of _ _) as [ty|]; [|done].
  destruct (_ && _); [done|]. destruct (_ && _); [|done].
  by intros [= <-].
Qed.

Lemma attach_consistent g p c slot g' e :
  Assembler.consistent g →
  Assembler.attach g p c slot = Assembler.Accepted (g', e) →
  Assembler.consistent g'.
Proof.
  intros [Hn He]. unfold Assembler.attach.
  destruct (Assembler.nodes g !! p) as [pn|] eqn:Hp; [|done].
  destruct (Assembler.nodes g !! c) as [cn|] eqn:Hc; [|done].
  destruct (Assembler.proposeConnection g cn pn slot) as [e'|] eqn:Hprop;
    [|done].
  intros [= <- <-].
  apply proposeConnection_accepted in Hprop as (Hs & Ht & Hty & _).
  destruct (Hn _ _ Hp) as [Hpid _], (Hn _ _ Hc) as [Hcid _].
  split_consistent.
  - apply node_ok_alter_config; [|done]. intros ?. apply hold_reference_tag.
  - apply map_Forall_insert_2.
    + exists (Assembler.kind cn), (Assembler.kind pn).
      rewrite !kind_of_alter_config, Hs, Ht, Hcid, Hpid.
      unfold Assembler.kind_of. by rewrite Hp, Hc.
    + intros eid e0 Hl. cbn. eapply edge_derived_mono; [|by eapply He].
      intros j kj. by rewrite kind_of_alter_config.
Qed.

Lemma detach_consistent g eid g' :
  Assembler.consistent g →
  Assembler.detach g eid = Assembler.Accepted g' →
  Assembler.consistent g'.
Proof.
  intros [Hn He]. unfold Assembler.detach.
  destruct (Assembler.edges g !! eid) as [e|]; [|done].
  intros [= <-]. split_consistent.
  - by apply node_ok_unreference.
  - intros j e0 [_ Hl]%lookup_delete_Some. cbn.
    eapply edge_derived_mono; [|by eapply He].
    intros ? ?. by rewrite kind_of_unreference.
Qed.

Lemma removeNode_consistent g id g' :
  Assembler.consistent g →
  Assembler.removeNode g id = Assembler.Accepted g' →
  Assembler.consistent g'.
Proof.
  intros [Hn He]. unfold Assembler.removeNode.
  destruct (Assembler.nodes g !! id) as [n|]; [|done].
  intros [= <-]. split_consistent.
  - apply map_Forall_delete. by apply node_ok_unreference_all.
  - intros j e [Hl Hnt]%map_lookup_filter_Some. cbn in *.
    destruct (He _ _ Hl) as (ks & kt & Hs & Ht & Hty).
    exists ks, kt. unfold Assembler.touches in Hnt.
    unfold Assembler.kind_of in *.
    rewrite !lookup_delete_ne by naive_solver.
    fold (Assembler.kind_of (foldr Assembler.unreference (Assembler.nodes g)
      (filter (λ e0, Assembler.owner (Assembler.edge_source e0) = id)
         (map_to_list (Assembler.edges g)).*2))
      (Assembler.owner (Assembler.edge_source e))).
    fold (Assembler.kind_of (foldr Assembler.unreference (Assembler.nodes g)
      (filter (λ e0, Assembler.owner (Assembler.edge_source e0) = id)
         (map_to_list (Assembler.edges g)).*2))
      (Assembler.owner (Assembler.edge_target e))).
    by rewrite !kind_of_unreference_all.
Qed.

Lemma step_consistent g op :
  Assembler.consistent g → Assembler.consistent (Assembler.step g op).
Proof.
  intros Hg. destruct op as [k c lbl pos|id c|p c s|e|id]; cbn.
  - destruct (Assembler.addNode g k c lbl pos) as [[g' n]|] eqn:E; cbn;
      eauto using addNode_consistent.
  - destruct (Assembler.updateConfig g id c) as [g'|] eqn:E; cbn;
      eauto using updateConfig_consistent.
  - destruct (Assembler.attach g p c s) as [[g' e]|] eqn:E; cbn;
      eauto using attach_consistent.
  - destruct (Assembler.detach g e) as [g'|] eqn:E; cbn;
      eauto using detach_consistent.
  - destruct (Assembler.removeNode g id) as [g'|] eqn:E; cbn;
      eauto using removeNode_consistent.
Qed.

Lemma run_consistent ops g :
  Assembler.consistent g → Assembler.consistent (Assembler.run g ops).
Proof.
  revert g. induction ops as [|op ops IH]; intros g Hg; cbn; [done|].
  apply IH. by apply step_consistent.
Qed.

(** ** Edges and kinds *)

(** C2: in every graph the assembler builds, each edge joins two stored
    nodes whose (source kind, target kind) pair is in the table, and the
    edge's connection type is the one the table derives from that pair:
    model to team and model to agent give [model_connection], tool to
    agent gives [tool_connection], agent to team gives
    [participant_connection].  No other pair is ever connected, in
    particular no termination to team, and every connection type has its
    renderer registered in [edgeTypes]. *)
Theorem edge_connection_type_derived
    (getBezierPath : list (string * JS.value) → JS.completion string)
    ops eid e :
  Assembler.edges (Assembler.run Assembler.empty ops) !! eid = Some e →
  ∃ s t,
    Assembler.nodes (Assembler.run Assembler.empty ops)
      !! Assembler.owner (Assembler.edge_source e) = Some s
    ∧ Assembler.nodes (Assembler.run Assembler.empty ops)
        !! Assembler.owner (Assembler.edge_target e) = Some t
    ∧ Assembler.connection_type_of (Assembler.kind s) (Assembler.kind t)
      = Some (Assembler.connection_type e)
    ∧ (Assembler.kind s, Assembler.kind t, Assembler.connection_type e)
      ∈ [ (model, team, model_connection);
          (model, agent, model_connection);
          (tool, agent, tool_connection);
          (agent, team, participant_connection) ]
    ∧ (Assembler.kind s, Assembler.kind t) ≠ (termination, team)
    ∧ edge_type_name (Assembler.connection_type e)
      ∈ (edgeTypes getBezierPath).*1.
Proof.
  intros Hl.
  destruct (run_consistent ops _ consistent_empty) as [_ He].
  destruct (He _ _ Hl) as (ks & kt & Hs & Ht & Hty).
  unfold Assembler.kind_of in Hs, Ht.
  apply fmap_Some in Hs as (s & Hs & ->).
  apply fmap_Some in Ht as (t & Ht & ->).
  exists s, t. split_and!; [done..| | |].
  - destruct (Assembler.kind s), (Assembler.kind t);
      cbn in Hty; try discriminate Hty; injection Hty as <-;
      rewrite !elem_of_cons; auto 6.
  - intros [= Hks Hkt]. by rewrite Hks, Hkt in Hty.
  - destruct (Assembler.connection_type e); cbn;
      rewrite !elem_of_cons; auto.
Qed.

Lemma edge_connection_type_derived_witness :
  Assembler.edges team_with_model !! "0" = Some the_model_edge
  ∧ ∃ s t,
      Assembler.nodes team_with_model !! "1" = Some s
      ∧ Assembler.nodes team_with_model !! "0" = Some t
      ∧ Assembler.connection_type_of (Assembler.kind s) (Assembler.kind t)
        = Some model_connection.
Proof.
  assert (Assembler.edges team_with_model !! "0" = Some the_model_edge)
    as Hl by (vm_compute; reflexivity).
  split; [exact Hl|].
  destruct (edge_connection_type_derived straight_path
              team_with_model_events "0" the_model_edge Hl)
    as (s & t & Hs & Ht & Hty & _).
  exists s, t. split_and!; [exact Hs|exact Ht|exact Hty].
Defined.

(** ** Single occupancy of the model slot *)

Lemma incoming_nonempty g eid e id ty :
  Assembler.edges g !! eid = Some e →
  Assembler.owner (Assembler.edge_target e) = id →
  Assembler.connection_type e = ty →
  Assembler.incoming g id ty ≠ [].
Proof.
  intros Hl Ho Hty Hnil.
  assert (e ∈ Assembler.incoming g id ty) as Hin.
  { unfold Assembler.incoming. apply list_elem_of_filter. split; [done|].
    apply list_elem_of_fmap. exists (eid, e). split; [done|].
    by apply elem_of_map_to_list. }
  rewrite Hnil in Hin. by apply not_elem_of_nil in Hin.
Qed.

(** C8: when a Team node already has a model attached (its config holds
    a model reference, or a model connection comes in), attaching a
    second model to its model slot is rejected with [SlotOccupied], and
    the graph after the attempt is the graph before it: the team's
    config, its model reference and the existing edge are untouched. *)
Theorem attach_second_model_rejected g teamId modelId
    (t m : Assembler.Node) :
  Assembler.nodes g !! teamId = Some t →
  Assembler.kind t = team →
  Assembler.nodes g !! modelId = Some m →
  Assembler.kind m = model →
  (is_Some (model_client (Assembler.config t))
   ∨ ∃ eid e, Assembler.edges g !! eid = Some e
              ∧ Assembler.owner (Assembler.edge_target e)
                = Assembler.node_id t
              ∧ Assembler.connection_type e = model_connection) →
  Assembler.attach g teamId modelId Assembler.model_slot
  = Assembler.Rejected Assembler.SlotOccupied
  ∧ Assembler.step g
      (Assembler.Attach teamId modelId Assembler.model_slot) = g
  ∧ Assembler.nodes
      (Assembler.step g
         (Assembler.Attach teamId modelId Assembler.model_slot))
      !! teamId = Some t.
Proof.
  intros Ht Hkt Hm Hkm Hocc.
  assert (Assembler.attach g teamId modelId Assembler.model_slot
          = Assembler.Rejected Assembler.SlotOccupied) as Hrej.
  { unfold Assembler.attach, Assembler.proposeConnection.
    rewrite Ht, Hm, Hkt, Hkm. cbn [Assembler.connection_type_of
      Assembler.single_occupancy andb Assembler.attached].
    assert (bool_decide (is_Some (model_client (Assembler.config t)))
            || bool_decide
                 (Assembler.incoming g (Assembler.node_id t) model_connection
                  ≠ []) = true) as ->; [|done].
    apply orb_true_iff. destruct Hocc as [Hc|(eid & e & Hl & Ho & Hty)].
    - left. by apply bool_decide_eq_true.
    - right. apply bool_decide_eq_true. by eapply incoming_nonempty. }
  split; [done|]. cbn [Assembler.step]. rewrite Hrej. by cbn.
Qed.

Lemma attach_second_model_rejected_witness :
  Assembler.nodes team_with_model !! "0" = Some the_team
  ∧ Assembler.nodes team_with_model !! "2" = Some the_second_model
  ∧ Assembler.attach team_with_model "0" "2" Assembler.model_slot
    = Assembler.Rejected Assembler.SlotOccupied
  ∧ Assembler.step team_with_model
      (Assembler.Attach "0" "2" Assembler.model_slot) = team_with_model.
Proof.
  assert (Assembler.nodes team_with_model !! "0" = Some the_team) as Ht
    by (vm_compute; reflexivity).
  assert (Assembler.nodes team_with_model !! "2" = Some the_second_model)
    as Hm by (vm_compute; reflexivity).
  split_and!; [exact Ht|exact Hm|..];
    apply (attach_second_model_rejected team_with_model "0" "2"
             the_team the_second_model Ht eq_refl Hm eq_refl);
    left; cbn; eauto.
Defined.

(** The scenario of the specification on an agent: the first model is
    attached, the agent's config holds it and one model connection
    exists; the second attachment is rejected. *)
Example agent_model_scenario :
  let g := Assembler.run Assembler.empty agent_with_model_events in
  (model_client ∘ Assembler.config <$> Assembler.nodes g !! "1")
  = Some (Some gpt_x)
  ∧ (Assembler.connection_type <$> (map_to_list (Assembler.edges g)).*2)
    = [model_connection]
  ∧ Assembler.attach g "1" "2" Assembler.model_slot
    = Assembler.Rejected Assembler.SlotOccupied
  ∧ Assembler.attach g "2" "1" Assembler.model_slot
    = Assembler.Rejected Assembler.IncompatibleKinds.
Proof. vm_compute. by split_and!. Qed.

(** ** Config variants and their consumers *)

(** On a config of the component's own variant the cast reads the
    fields of that variant: the component renders what matching on the
    variant renders. *)
Lemma cast_agrees_on_own_variant k id c :
  config_tag c = k → render_matching k id c = Some (nodeTypes k id c).
Proof. intros <-. by destruct c. Qed.

(** The components read named fields only; they never look at the
    variant the config comes from. *)
Lemma nodeTypes_reads_fields_only k id c c' :
  model_client c' = model_client c →
  termination_condition c' = termination_condition c →
  participants c' = participants c →
  tools c' = tools c →
  nodeTypes k id c' = nodeTypes k id c.
Proof.
  intros Hm Ht Hp Hl.
  destruct k; cbn; unfold TeamNode, AgentNode; by rewrite ?Hm, ?Ht, ?Hp, ?Hl.
Qed.

(** C9, as stated, fails: [TeamNode] interprets an agent's config as a
    team's.  Matching on the variant would not render it; the component
    casts, reads [model_client] from the agent's config, and renders a
    team with its input handle. *)
Lemma TeamNode_casts_any_config :
  config_tag agent_with_model ≠ team
  ∧ render_matching team "n1" agent_with_model = None
  ∧ handles (nodeTypes team "n1" agent_with_model)
    = [input_handle "n1"; output_handle "n1"]
  ∧ ¬ (∀ k id c, render_matching k id c = Some (nodeTypes k id c)).
Proof.
  split_and!; [done..|].
  intros H. specialize (H team "n1" agent_with_model). discriminate H.
Qed.

(** C9 (amended): in every graph the assembler builds, each stored node
    carries a config whose variant tag equals the node's kind.  The
    component that interprets it is selected by the node's kind through
    [nodeTypes] and reads the config through a cast: it reads the named
    fields from whatever config it is given and never tests the tag.  On
    these nodes, whose tag equals their kind, the cast reads the fields
    of the node's own variant, so the component renders exactly what
    matching on the tag renders. *)
Theorem nodes_well_kinded_and_cast_sound ops id (n : Assembler.Node) :
  Assembler.nodes (Assembler.run Assembler.empty ops) !! id = Some n →
  config_tag (Assembler.config n) = Assembler.kind n
  ∧ Assembler.node_id n = id
  ∧ render_matching (Assembler.kind n) id (Assembler.config n)
    = Some (nodeTypes (Assembler.kind n) id (Assembler.config n))
  ∧ ∀ k c',
      model_client c' = model_client (Assembler.config n) →
      termination_condition c' = termination_condition (Assembler.config n) →
      participants c' = participants (Assembler.config n) →
      tools c' = tools (Assembler.config n) →
      nodeTypes k id c' = nodeTypes k id (Assembler.config n).
Proof.
  intros Hl.
  destruct (run_consistent ops _ consistent_empty) as [Hn _].
  destruct (Hn _ _ Hl) as [Hid Htag].
  split_and!; [done..| |].
  - by apply cast_agrees_on_own_variant.
  - intros k c'. apply nodeTypes_reads_fields_only.
Qed.

Lemma nodes_well_kinded_and_cast_sound_witness :
  Assembler.nodes team_with_model !! "0" = Some the_team
  ∧ config_tag team_holding_model = team
  ∧ render_matching team "0" team_holding_model
    = Some (nodeTypes team "0" team_holding_model).
Proof.
  assert (Assembler.nodes team_with_model !! "0" = Some the_team) as Hl
    by (vm_compute; reflexivity).
  split; [exact Hl|].
  destruct (nodes_well_kinded_and_cast_sound team_with_model_events "0"
              the_team Hl) as (Htag & _ & Hcast & _).
  split; [exact Htag|exact Hcast].
Defined.

(** * Further properties of the components *)

(** ** What a drop zone accepts *)

Lemma kind_name_inj k1 k2 : kind_name k1 = kind_name k2 → k1 = k2.
Proof. by destruct k1, k2. Qed.

Lemma strict_equal_str s t :
  JS.strict_equal (JS.str s) t = true ↔ t = JS.str s.
Proof.
  destruct t; cbn; try (split; [discriminate|done]).
  rewrite String.eqb_eq. split; [by intros ->|by intros [= ->]].
Qed.

Lemma includes_true acc t :
  includes acc t = true ↔ ∃ k, k ∈ acc ∧ t = JS.str (kind_name k).
Proof.
  unfold includes. rewrite existsb_exists. split.
  - intros (k & Hin & Heq). exists k. split; [by apply list_elem_of_In|].
    by apply strict_equal_str.
  - intros (k & Hin & ->). exists k. split; [by apply list_elem_of_In|].
    by apply strict_equal_str.
Qed.

Lemma includes_kind acc k :
  includes acc (JS.str (kind_name k)) = bool_decide (k ∈ acc).
Proof.
  apply eq_true_iff_eq. rewrite includes_true, bool_decide_eq_true. split.
  - intros (k' & Hin & [= Hk]). by apply kind_name_inj in Hk as ->.
  - intros Hin. eauto.
Qed.

Lemma canDrop_true_includes h acc :
  canDrop h acc = JS.Normal true →
  isOver h = true
  ∧ ∃ t, draggedType (active h) = JS.Normal t ∧ includes acc t = true.
Proof.
  destruct (canDrop_normal h acc) as (t & Ht & ->). intros [= H].
  apply andb_true_iff in H as [[Ho _]%andb_true_iff Hi]. eauto.
Qed.

(** X1: the zone reports a legal drop exactly when the pointer is over
    it and the type the active item resolves to is the name of one of the
    accepted kinds. *)
Theorem canDrop_true_iff h acc :
  canDrop h acc = JS.Normal true
  ↔ isOver h = true
    ∧ ∃ k, k ∈ acc ∧ draggedType (active h) = JS.Normal (JS.str (kind_name k)).
Proof.
  split.
  - intros (Ho & t & Ht & Hi)%canDrop_true_includes.
    split; [done|]. apply includes_true in Hi as (k & Hin & ->). eauto.
  - destruct (canDrop_normal h acc) as (t & Ht & ->). rewrite Ht.
    intros (Ho & k & Hin & [= ->]). rewrite Ho, includes_kind.
    rewrite (bool_decide_eq_true_2 _ Hin). by destruct k.
Qed.

(** X2: for a well-formed payload of kind [k], the drop is legal exactly
    when the pointer is over the zone and [k] is among the accepted
    kinds. *)
Theorem canDrop_dragItem over k acc :
  canDrop {| isOver := over; active := dragItem k |} acc
  = JS.Normal (over && bool_decide (k ∈ acc)).
Proof.
  destruct (canDrop_normal {| isOver := over; active := dragItem k |} acc)
    as (t & Ht & ->).
  cbn in Ht. injection Ht as <-. cbn [isOver]. rewrite includes_kind.
  by destruct k, over.
Qed.

Lemma zones_inv k n c z :
  z ∈ zones (nodeTypes k n c) →
  ∃ d, (k, d) ∈ drop_table
       ∧ z = zone n ("-" +:+ kind_name d +:+ "-zone") [d]
       ∧ "-" +:+ kind_name d +:+ "-zone" ∈ zone_endings.
Proof.
  unfold drop_table, zone_endings.
  destruct k; cbn; rewrite ?elem_of_cons, elem_of_nil; intros Hz;
    destruct_or?; try done; subst z;
    match goal with |- ∃ d, _ ∧ zone _ _ [?x] = _ ∧ _ => exists x end;
    (split_and!; [|reflexivity|]); set_solver.
Qed.

(** X3: the drop zones of a node never compete: for one drag context, at
    most one zone of the node reports a legal drop. *)
Theorem node_zones_exclusive k n c h z1 z2 :
  z1 ∈ zones (nodeTypes k n c) →
  z2 ∈ zones (nodeTypes k n c) →
  canDrop h (accepts z1) = JS.Normal true →
  canDrop h (accepts z2) = JS.Normal true →
  z1 = z2.
Proof.
  intros (d1 & _ & -> & _)%zones_inv (d2 & _ & -> & _)%zones_inv.
  cbn [accepts zone].
  intros (_ & t1 & Ht1 & Hi1)%canDrop_true_includes
         (_ & t2 & Ht2 & Hi2)%canDrop_true_includes.
  apply includes_true in Hi1 as (k1 & Hk1 & ->).
  apply includes_true in Hi2 as (k2 & Hk2 & ->).
  apply list_elem_of_singleton in Hk1 as ->.
  apply list_elem_of_singleton in Hk2 as ->.
  rewrite Ht1 in Ht2. injection Ht2 as Hk. by apply kind_name_inj in Hk as ->.
Qed.

Lemma node_zones_exclusive_witness :
  zone "t1" "-model-zone" [model] ∈ zones (nodeTypes team "t1" (TeamCfg round_robin))
  ∧ canDrop model_over_zone [model] = JS.Normal true
  ∧ zone "t1" "-model-zone" [model] = zone "t1" "-model-zone" [model].
Proof.
  assert (zone "t1" "-model-zone" [model]
          ∈ zones (nodeTypes team "t1" (TeamCfg round_robin))) as Hz
    by (apply elem_of_cons; by left).
  assert (canDrop model_over_zone [model] = JS.Normal true) as Hc
    by reflexivity.
  split_and!; [exact Hz|exact Hc|].
  exact (node_zones_exclusive team "t1" (TeamCfg round_robin)
           model_over_zone _ _ Hz Hz Hc Hc).
Defined.

(** X4: the (node kind, dropped kind) pairs the drop zones accept are
    exactly: model, agent and termination on a team; model and tool on an
    agent.  For every id and config, a node of kind [k] has a zone
    accepting [d] exactly when the pair is one of these; nothing can be
    dropped on a model, a tool or a termination, and a team can be
    dropped nowhere. *)
Theorem zones_accept_drop_table k n c d :
  (∃ z, z ∈ zones (nodeTypes k n c) ∧ d ∈ accepts z) ↔ (k, d) ∈ drop_table.
Proof.
  split.
  - intros (z & (d' & Hd' & -> & _)%zones_inv & Hd). cbn in Hd.
    by apply list_elem_of_singleton in Hd as ->.
  - intros Hkd. exists (zone n ("-" +:+ kind_name d +:+ "-zone") [d]).
    split; [|by apply list_elem_of_singleton].
    unfold drop_table in Hkd. rewrite !elem_of_cons, elem_of_nil in Hkd.
    destruct_or?; try done; injection Hkd as -> ->; cbn; set_solver.
Qed.

(** ** Handle and zone ids *)

Lemma chars_app s1 s2 : chars (s1 +:+ s2) = chars s1 ++ chars s2.
Proof.
  unfold chars. induction s1 as [|a s1 IH]; [done|].
  change (String a s1 +:+ s2) with (String a (s1 +:+ s2)).
  cbn [String.list_ascii_of_string app]. by rewrite IH.
Qed.

Lemma chars_inj s1 s2 : chars s1 = chars s2 → s1 = s2.
Proof.
  unfold chars. intros H.
  rewrite <- (String.string_of_list_ascii_of_string s1),
          <- (String.string_of_list_ascii_of_string s2).
  by rewrite H.
Qed.

(** Two ids built from node ids by appending an ending: if the ids are
    equal, one ending is an ending of the other. *)
Lemma append_eq_comparable n1 t1 n2 t2 :
  n1 +:+ t1 = n2 +:+ t2 → comparable t1 t2 = true.
Proof.
  intros H. apply (f_equal chars) in H. rewrite !chars_app in H.
  unfold comparable. apply orb_true_iff.
  destruct (suffix_weak_total (chars t1) (chars t2) (chars n1 ++ chars t1));
    [by eexists|rewrite H; by eexists|left|right];
    by apply bool_decide_eq_true.
Qed.

Lemma append_inv_tail n1 n2 t : n1 +:+ t = n2 +:+ t → n1 = n2.
Proof.
  intros H. apply (f_equal chars) in H. rewrite !chars_app in H.
  apply app_inv_tail in H. by apply chars_inj.
Qed.

(** Equal ids with endings from a list of pairwise incomparable endings:
    the same node id and the same ending. *)
Lemma tagged_id_inj (endings : list string) n1 t1 n2 t2 :
  (∀ a b, a ∈ endings → b ∈ endings → comparable a b = true → a = b) →
  t1 ∈ endings → t2 ∈ endings →
  n1 +:+ t1 = n2 +:+ t2 → n1 = n2 ∧ t1 = t2.
Proof.
  intros Hinc H1 H2 Heq.
  assert (t1 = t2) as -> by eauto using append_eq_comparable.
  split; [by eapply append_inv_tail|done].
Qed.

Lemma endings_incomparable a b :
  a ∈ handle_endings ++ zone_endings →
  b ∈ handle_endings ++ zone_endings →
  comparable a b = true → a = b.
Proof.
  unfold handle_endings, zone_endings. cbn [app].
  rewrite !elem_of_cons, !elem_of_nil.
  intros Ha Hb; destruct_or?; try done; subst a b;
    first [reflexivity | vm_compute; discriminate].
Qed.

Local Ltac solve_ending :=
  apply elem_of_app;
  first [ right; assumption
        | left; unfold handle_endings; rewrite !elem_of_cons; by auto ].

Lemma handles_inv k n c h :
  h ∈ handles (nodeTypes k n c) →
  (h_id h = n +:+ "-input-handle" ∧ h_position h = Left)
  ∨ (h_id h = n +:+ "-output-handle" ∧ h_position h = Right).
Proof.
  destruct k; cbn; try case_match; cbn;
    rewrite ?elem_of_cons, elem_of_nil; intros Hh;
    destruct_or?; try done; subst h; auto.
Qed.

(** X5: a handle id names one node and one side.  Whatever the kinds and
    configs, two rendered handles with the same id belong to nodes with
    the same id and sit on the same side; in particular no input handle
    of any node shares its id with an output handle of any node. *)
Theorem handle_id_identifies_node_and_side k n c k' n' c' h h' :
  h ∈ handles (nodeTypes k n c) →
  h' ∈ handles (nodeTypes k' n' c') →
  h_id h = h_id h' →
  n = n' ∧ h_position h = h_position h'.
Proof.
  intros Hh Hh' Heq.
  apply handles_inv in Hh as [[Hi Hp]|[Hi Hp]];
    apply handles_inv in Hh' as [[Hi' Hp']|[Hi' Hp']];
    rewrite Hi, Hi' in Heq; rewrite Hp, Hp';
    apply (tagged_id_inj (handle_endings ++ zone_endings)) in Heq
      as [-> He]; try done; try apply endings_incomparable;
    solve_ending.
Qed.

Lemma handle_id_identifies_node_and_side_witness :
  input_handle "t1" ∈ handles (nodeTypes team "t1" team_holding_model)
  ∧ input_handle "t1" ∈ handles (nodeTypes agent "t1" agent_with_model)
  ∧ h_position (input_handle "t1") = Left.
Proof.
  assert (input_handle "t1" ∈ handles (nodeTypes team "t1" team_holding_model))
    as H1 by (apply elem_of_cons; by left).
  assert (input_handle "t1" ∈ handles (nodeTypes agent "t1" agent_with_model))
    as H2 by (apply elem_of_cons; by left).
  split_and!; [exact H1|exact H2|].
  destruct (handle_id_identifies_node_and_side _ _ _ _ _ _ _ _ H1 H2 eq_refl)
    as [_ Hp].
  exact Hp.
Defined.

(** X6: a zone id names one node and one accepted kind, and is never a
    handle id.  Two rendered zones with the same id belong to nodes with
    the same id and accept the same kinds, and no rendered zone shares
    its id with a rendered handle. *)
Theorem zone_id_identifies_node_and_kind k n c k' n' c' z z' :
  z ∈ zones (nodeTypes k n c) →
  z' ∈ zones (nodeTypes k' n' c') →
  (id z = id z' → n = n' ∧ accepts z = accepts z')
  ∧ ∀ h, h ∈ handles (nodeTypes k' n' c') → id z ≠ h_id h.
Proof.
  intros (d & _ & -> & Hd)%zones_inv (d' & _ & -> & Hd')%zones_inv.
  cbn [id accepts zone]. split.
  - intros Heq.
    apply (tagged_id_inj (handle_endings ++ zone_endings)) in Heq
      as [-> He]; [|apply endings_incomparable|solve_ending..].
    split; [done|].
    apply (inj (String.append "-")) in He.
    apply append_inv_tail, kind_name_inj in He. by rewrite He.
  - intros h Hh Heq.
    apply handles_inv in Hh as [[Hi _]|[Hi _]]; rewrite Hi in Heq;
      apply (tagged_id_inj (handle_endings ++ zone_endings)) in Heq
        as [_ He]; try apply endings_incomparable;
      try solve_ending;
      destruct d; discriminate He.
Qed.

Lemma zone_id_identifies_node_and_kind_witness :
  zone "a1" "-tool-zone" [tool] ∈ zones (nodeTypes agent "a1" agent_with_model)
  ∧ id (zone "a1" "-tool-zone" [tool]) ≠ h_id (input_handle "a1").
Proof.
  assert (zone "a1" "-tool-zone" [tool]
          ∈ zones (nodeTypes agent "a1" agent_with_model)) as Hz
    by (apply elem_of_cons; right; apply elem_of_cons; by left).
  split; [exact Hz|].
  destruct (zone_id_identifies_node_and_kind _ _ _ _ _ _ _ _ Hz Hz)
    as [_ Hne].
  apply Hne. apply elem_of_cons. by left.
Defined.

(** ** Badges and sections *)

(** X7: in a Team node the badges never disagree with the sections: the
    Model badge is lit exactly when the Model section shows a model, the
    Participants badge exactly when the Participants section lists a row,
    the number in its label and in the section title is the number of
    rows listed, and the input handle is rendered exactly when the Model
    or the Terminations section shows an attachment. *)
Theorem TeamNode_badges_agree_with_sections n c :
  badges (TeamNode n c)
  = [ {| connected :=
           bool_decide (is_Some (team_model_row (TeamNode_sections c)));
         label := "Model" |};
      {| connected :=
           bool_decide (team_participant_rows (TeamNode_sections c) ≠ []);
         label :=
           pretty (length (team_participant_rows (TeamNode_sections c)))
           +:+ " Participants" |} ]
  ∧ team_participants_count (TeamNode_sections c)
    = length (team_participant_rows (TeamNode_sections c))
  ∧ (input_handle n ∈ handles (TeamNode n c)
     ↔ is_Some (team_model_row (TeamNode_sections c))
       ∨ is_Some (team_termination_row (TeamNode_sections c))).
Proof.
  unfold TeamNode, TeamNode_sections; cbn [badges handles team_model_row
    team_participant_rows team_participants_count team_termination_row].
  rewrite length_fmap. split_and!; [|done|].
  - repeat f_equal.
    + apply bool_decide_ext. by rewrite fmap_is_Some.
    + apply bool_decide_ext. destruct (participants c); cbn; [|split; [done|lia]].
      split; [lia|done].
  - rewrite !fmap_is_Some.
    destruct (model_client c), (termination_condition c); cbn;
      rewrite ?elem_of_cons, elem_of_nil.
    1-3: split; [intros _; eauto|intros _; by left].
    split; [intros [[=]|[]]|intros [[? [=]]|[? [=]]]].
Qed.

(** X8: in an Agent node the badges never disagree with the sections:
    the Model badge is lit exactly when the Model section shows a model,
    the Tools badge exactly when the Tools section lists a row, and the
    number in its label is the number of rows listed. *)
Theorem AgentNode_badges_agree_with_sections n c :
  badges (AgentNode n c)
  = [ {| connected :=
           bool_decide (is_Some (agent_model_row (AgentNode_sections c)));
         label := "Model" |};
      {| connected :=
           bool_decide (agent_tool_rows (AgentNode_sections c) ≠ []);
         label :=
           pretty (length (agent_tool_rows (AgentNode_sections c)))
           +:+ " Tools" |} ].
Proof.
  unfold AgentNode, AgentNode_sections; cbn [badges agent_model_row
    agent_tool_rows].
  assert ((if bool_decide (0 < length (tools c))
           then tool_name <$> tools c else []) = tool_name <$> tools c) as ->
    by (by destruct (tools c)).
  rewrite length_fmap. repeat f_equal.
  - apply bool_decide_ext. by rewrite fmap_is_Some.
  - apply bool_decide_ext. destruct (tools c); cbn; [|split; [done|lia]].
    split; [lia|done].
Qed.

(** ** More on edge rendering *)

(** X9: a [type] that is present but falsy ([null], the empty string,
    [0], [false], [NaN]) is treated like a missing one: the edge gets the
    model-connection style. *)
Theorem edgeStyle_falsy_type data t :
  JS.opt_get data "type" = JS.Normal t →
  JS.truthy t = false →
  edgeStyle data = JS.Normal model_connection_style.
Proof.
  intros Ht Hf. unfold edgeStyle, edgeType, JS.or_else.
  rewrite Ht. cbn [JS.bind]. by rewrite Hf.
Qed.

Lemma edgeStyle_falsy_type_witness :
  edgeStyle (JS.object [("type", JS.null)]) = JS.Normal model_connection_style.
Proof.
  apply (edgeStyle_falsy_type (JS.object [("type", JS.null)]) JS.null);
    reflexivity.
Defined.

(** X10: for an edge whose [type] is a string, the style always has
    [strokeWidth] 2, and it has a stroke colour exactly when the string
    is empty or names one of the three connection types.  An
    unrecognised type does not fall back to the model-connection colour:
    it is drawn with no stroke colour at all. *)
Theorem edgeStyle_stroke_iff data s :
  JS.opt_get data "type" = JS.Normal (JS.str s) →
  ∃ st, edgeStyle data = JS.Normal (JS.object st)
        ∧ JS.lookup_field "strokeWidth" st = JS.number 2
        ∧ (JS.lookup_field "stroke" st ≠ JS.undefined
           ↔ s = EmptyString ∨ ∃ ty, s = edge_type_name ty).
Proof.
  intros Ht. destruct (String.eqb s EmptyString) eqn:Hs.
  - apply String.eqb_eq in Hs as ->.
    unfold edgeStyle, edgeType, JS.or_else. rewrite Ht. cbn.
    eexists. split; [done|]. split; [done|]. cbn. split; [auto|done].
  - unfold edgeStyle, edgeType, JS.or_else. rewrite Ht.
    cbn [JS.bind JS.truthy]. rewrite Hs. cbn [negb JS.bind property_key].
    eexists. split; [done|]. split; [apply lookup_set_field_eq|].
    rewrite lookup_set_field_ne by done.
    apply String.eqb_neq in Hs. unfold EDGE_STYLES. cbn [JS.lookup_field].
    destruct (String.eqb "model-connection" s) eqn:E1;
      [apply String.eqb_eq in E1 as <-; cbn;
       split; [intros _; right; by exists model_connection|done]|].
    destruct (String.eqb "tool-connection" s) eqn:E2;
      [apply String.eqb_eq in E2 as <-; cbn;
       split; [intros _; right; by exists tool_connection|done]|].
    destruct (String.eqb "participant-connection" s) eqn:E3;
      [apply String.eqb_eq in E3 as <-; cbn;
       split; [intros _; right; by exists participant_connection|done]|].
    cbn. split; [done|]. intros [->|[ty ->]]; [done|].
    destruct ty; by rewrite ?String.eqb_refl in *.
Qed.

Lemma edgeStyle_stroke_iff_witness :
  ∃ st, edgeStyle (JS.object [("type", JS.str "relay-connection")])
        = JS.Normal (JS.object st)
        ∧ JS.lookup_field "strokeWidth" st = JS.number 2.
Proof.
  destruct (edgeStyle_stroke_iff
              (JS.object [("type", JS.str "relay-connection")])
              "relay-connection" eq_refl) as (st & Hs & Hw & _).
  exists st. split; [exact Hs|exact Hw].
Defined.


(** ** The sidebar *)

Lemma append_assoc (s1 s2 s3 : string) :
  (s1 +:+ s2) +:+ s3 = s1 +:+ (s2 +:+ s3).
Proof.
  induction s1 as [|a s1 IH]; [done|].
  change (String a ((s1 +:+ s2) +:+ s3) = String a (s1 +:+ (s2 +:+ s3))).
  by rewrite IH.
Qed.

Lemma concat_app sep (l1 l2 : list string) :
  l1 ≠ [] → l2 ≠ [] →
  String.concat sep (l1 ++ l2)
  = String.concat sep l1 +:+ (sep +:+ String.concat sep l2).
Proof.
  intros H1 H2. induction l1 as [|x l1 IH]; [done|].
  destruct l1 as [|y l1].
  - by destruct l2.
  - change (x +:+ (sep +:+ String.concat sep ((y :: l1) ++ l2))
            = (x +:+ (sep +:+ String.concat sep (y :: l1)))
              +:+ (sep +:+ String.concat sep l2)).
    rewrite IH by done. by rewrite !append_assoc.
Qed.

(** The texts [classNames] joins are never empty. *)
Lemma kept_text_nonempty c :
  Sidebar.to_boolean c = true → Sidebar.to_text c ≠ EmptyString.
Proof.
  destruct c as [s| |[]]; cbn; try done.
  intros H%negb_true_iff. by apply String.eqb_neq in H.
Qed.

Lemma concat_nonempty sep (x : string) (l : list string) :
  x ≠ EmptyString → String.concat sep (x :: l) ≠ EmptyString.
Proof.
  destruct x as [|a x]; [done|]. intros _.
  destruct l as [|y l]; [done|].
  change (String a (x +:+ (sep +:+ String.concat sep (y :: l)))
          ≠ EmptyString).
  done.
Qed.

Lemma classNames_empty_iff classes :
  Sidebar.classNames classes = EmptyString
  ↔ List.filter Sidebar.to_boolean classes = [].
Proof.
  unfold Sidebar.classNames. split; [|by intros ->].
  destruct (List.filter Sidebar.to_boolean classes) as [|c l] eqn:E; [done|].
  assert (Sidebar.to_boolean c = true) as Hc.
  { eapply (proj1 (List.filter_In _ c classes)). rewrite E. by left. }
  apply kept_text_nonempty in Hc. intros H.
  by apply (concat_nonempty " " _ (Sidebar.to_text <$> l)) in Hc.
Qed.

(** X12: [classNames] ignores its falsy arguments ([false],
    [undefined], the empty string): leaving one out, wherever it stands,
    gives the same class string. *)
Theorem classNames_skips_falsy xs a ys :
  Sidebar.to_boolean a = false →
  Sidebar.classNames (xs ++ a :: ys) = Sidebar.classNames (xs ++ ys).
Proof.
  intros Ha. unfold Sidebar.classNames.
  rewrite !List.filter_app. cbn [List.filter]. by rewrite Ha.
Qed.

Lemma classNames_skips_falsy_witness :
  Sidebar.classNames
    [Sidebar.Str "-mx-2 space-y-1"; Sidebar.when false "items-center"]
  = Sidebar.classNames [Sidebar.Str "-mx-2 space-y-1"].
Proof.
  apply (classNames_skips_falsy [Sidebar.Str "-mx-2 space-y-1"]
           (Sidebar.when false "items-center") []).
  reflexivity.
Defined.

(** X13: [classNames] composes: the class string of two argument lists
    put together is the class string of the two class strings, so a
    group of arguments can be replaced by its class string. *)
Theorem classNames_app xs ys :
  Sidebar.classNames (xs ++ ys)
  = Sidebar.classNames
      [Sidebar.Str (Sidebar.classNames xs); Sidebar.Str (Sidebar.classNames ys)].
Proof.
  assert (∀ zs, List.filter Sidebar.to_boolean zs = []
                ∧ Sidebar.classNames zs = EmptyString
              ∨ List.filter Sidebar.to_boolean zs ≠ []
                ∧ String.eqb (Sidebar.classNames zs) EmptyString = false)
    as Hcases.
  { intros zs. destruct (List.filter Sidebar.to_boolean zs) eqn:E.
    - left. split; [done|]. by apply classNames_empty_iff.
    - right. split; [done|]. apply String.eqb_neq.
      rewrite classNames_empty_iff, E. done. }
  unfold Sidebar.classNames in *.
  rewrite List.filter_app, fmap_app. cbn [List.filter Sidebar.to_boolean].
  destruct (Hcases xs) as [[Hx Hcx]|[Hx Hcx]],
           (Hcases ys) as [[Hy Hcy]|[Hy Hcy]];
    rewrite ?Hcx, ?Hcy; cbn [String.eqb negb fmap list_fmap Sidebar.to_text
      String.concat].
  - by rewrite Hx, Hy.
  - by rewrite Hx.
  - rewrite Hy. cbn [fmap list_fmap]. by rewrite app_nil_r.
  - apply concat_app.
    + by destruct (List.filter Sidebar.to_boolean xs).
    + by destruct (List.filter Sidebar.to_boolean ys).
Qed.

(** X14: [setNavigationHeader] sets a header exactly for the three known
    paths, the root, [/build] and [/settings], and sets nothing for any
    other path.  The header it sets has a single breadcrumb, marked
    current, that carries the header's title and leads back to the
    path. *)
Theorem setNavigationHeader_known_paths path :
  (is_Some (Sidebar.setNavigationHeader path)
   ↔ path ∈ ["/"; "/build"; "/settings"])
  ∧ ∀ hd, Sidebar.setNavigationHeader path = Some hd →
          Sidebar.header_breadcrumbs hd
          = Some [ {| Sidebar.crumb_name := Sidebar.title hd;
                      Sidebar.crumb_href := path;
                      Sidebar.crumb_current := Some true |} ].
Proof.
  unfold Sidebar.setNavigationHeader, Sidebar.navigation.
  cbn [List.find Sidebar.href]. rewrite !elem_of_cons, elem_of_nil.
  destruct (String.eqb "/" path) eqn:E1;
    [apply String.eqb_eq in E1 as <-; split; [split; eauto|by intros ? [= <-]]|].
  destruct (String.eqb "/build" path) eqn:E2;
    [apply String.eqb_eq in E2 as <-; split; [split; eauto|by intros ? [= <-]]|].
  destruct (String.eqb path "/settings") eqn:E3;
    [apply String.eqb_eq in E3 as ->; split; [split; eauto|by intros ? [= <-]]|].
  apply String.eqb_neq in E1, E2, E3.
  split; [|done]. split; [by intros [? [=]]|].
  intros [->|[->|[->|[]]]]; done.
Qed.

Lemma entries_inv link meta mob exp (e : Sidebar.NavEntry) :
  e ∈ Sidebar.entries (Sidebar.Sidebar link meta mob exp)
  ∨ e = Sidebar.settings (Sidebar.Sidebar link meta mob exp) →
  (∃ item, item ∈ Sidebar.navigation
           ∧ e = Sidebar.navEntry link mob exp item)
  ∨ e = Sidebar.settingsEntry mob exp.
Proof.
  intros [He| ->]; [left|by right].
  cbn [Sidebar.entries Sidebar.Sidebar] in He.
  apply list_elem_of_fmap in He as (item & -> & Hin). eauto.
Qed.

(** X15: clicking an entry and arriving at its target agree.  For every
    entry the sidebar renders, the Settings entry included, the header
    its click sets is the header [setNavigationHeader] sets for the
    entry's target path. *)
Theorem click_agrees_with_route link meta mob exp (e : Sidebar.NavEntry) :
  e ∈ Sidebar.entries (Sidebar.Sidebar link meta mob exp)
  ∨ e = Sidebar.settings (Sidebar.Sidebar link meta mob exp) →
  Sidebar.setNavigationHeader (Sidebar.entry_to e)
  = Some (Sidebar.entry_onClick e).
Proof.
  intros [(item & Hin & ->)| ->]%entries_inv.
  - unfold Sidebar.navigation in Hin.
    rewrite !elem_of_cons, elem_of_nil in Hin.
    destruct Hin as [->|[->|[]]]; reflexivity.
  - unfold Sidebar.settingsEntry. by destruct (_ && _).
Qed.

Lemma click_agrees_with_route_witness :
  Sidebar.setNavigationHeader
    (Sidebar.entry_to (Sidebar.settingsEntry false false))
  = Some (Sidebar.entry_onClick (Sidebar.settingsEntry false false)).
Proof.
  apply (click_agrees_with_route "/build" None false false
           (Sidebar.settingsEntry false false)).
  right. reflexivity.
Defined.

(** X16: every entry the sidebar renders, the Settings entry included,
    presents its name in exactly one way: as the label inside the link
    when the sidebar is shown in full, as the tooltip around it
    otherwise.  The tooltip is used only on a collapsed sidebar that is
    not in mobile view; in mobile view the sidebar is always shown in
    full. *)
Theorem entry_name_shown_one_way link meta mob exp (e : Sidebar.NavEntry) :
  e ∈ Sidebar.entries (Sidebar.Sidebar link meta mob exp)
  ∨ e = Sidebar.settings (Sidebar.Sidebar link meta mob exp) →
  (Sidebar.entry_label e = Some (Sidebar.title (Sidebar.entry_onClick e))
   ∧ Sidebar.entry_tooltip e = None
   ∧ Sidebar.showFull mob exp = true)
  ∨ (Sidebar.entry_label e = None
     ∧ Sidebar.entry_tooltip e
       = Some (Sidebar.title (Sidebar.entry_onClick e))
     ∧ mob = false ∧ exp = false).
Proof.
  intros [(item & _ & ->)| ->]%entries_inv; destruct mob, exp; cbn; auto.
Qed.

Lemma entry_name_shown_one_way_witness :
  Sidebar.entry_label (Sidebar.settingsEntry false false) = None
  ∧ Sidebar.entry_tooltip (Sidebar.settingsEntry false false)
    = Some "Settings".
Proof.
  destruct (entry_name_shown_one_way "/" None false false
              (Sidebar.settingsEntry false false))
    as [(_ & Ht & _)|(Hl & Ht & _)].
  - right. reflexivity.
  - discriminate Ht.
  - split; [exact Hl|exact Ht].
Defined.

(** X17: within one rendered node no two handles share an id and no two
    drop zones share an id, for every kind, node id and config. *)
Theorem node_element_ids_distinct k n c :
  NoDup (h_id <$> handles (nodeTypes k n c))
  ∧ NoDup (id <$> zones (nodeTypes k n c)).
Proof.
  assert (∀ a b : string, a ≠ b → n +:+ a ≠ n +:+ b) as Hne
    by (intros a b Hab Heq; by apply (inj (String.append n)) in Heq).
  split.
  - destruct k; cbn; try case_match; cbn;
      repeat (apply NoDup_cons; split;
              [rewrite ?not_elem_of_cons; split_and?;
               try apply not_elem_of_nil; by apply Hne|]);
      apply NoDup_nil_2.
  - destruct k; cbn;
      repeat (apply NoDup_cons; split;
              [rewrite ?not_elem_of_cons; split_and?;
               try apply not_elem_of_nil; by apply Hne|]);
      apply NoDup_nil_2.
Qed.
